(** * piwheels: a shallow embedding of the database layer, the build slave
      and the index scribe, with the properties stated for them.

    Layout: the embedded program first (modules [Db], [Slave], [Scribe]),
    then the lemmas about it.

    - [Db] follows [piwheels/db.py] (class [PiWheelsDatabase]).
    - [Slave] follows [piwheels/slave/__init__.py] (class [PiWheelsSlave]).
    - [Scribe] covers the index scribe, whose implementation is not among
      the sources; it is modelled from the specification. *)

From Stdlib Require Import ZArith List String Ascii Bool Lia Sorted Permutation.
From Stdlib Require QArith.
From Stdlib Require Import DecimalString DecimalFacts DecimalPos DecimalN DecimalZ.
From Stdlib.Strings Require Import Byte.
From stdpp Require Import base option list gmap strings.
Import ListNotations.

(* ===================================================================== *)
(** * Python-level results *)
(* ===================================================================== *)

(** The exception classes that the embedded code can raise. *)
Inductive exn : Type :=
| AssertionError (msg : string)
| TypeError
| ValueError
| KeyError (key : string)
| IndexError
| AttributeError
| OSError
| OverflowError
| KeyboardInterrupt
| ZMQError
| IntegrityError
| ProgrammingError.

(** A call either returns a value or raises. *)
Inductive result (A : Type) : Type :=
| Ok (a : A)
| Raise (e : exn).
Arguments Ok {A} a.
Arguments Raise {A} e.

(** Sequencing: an exception ends the computation ([x ← r; k] and [r;; k]
    below are stdpp's notations for it). *)
#[export] Instance result_ret : MRet result := fun A a => Ok a.

#[export] Instance result_bind : MBind result := fun A B k r =>
  match r with
  | Ok a => k a
  | Raise e => Raise e
  end.

(** [assert cond, msg] *)
Definition assert (cond : bool) (msg : string) : result unit :=
  if cond then Ok tt else Raise (AssertionError msg).

(* ===================================================================== *)
(** * piwheels/db.py *)
(* ===================================================================== *)

Module Db.

(** SQL values of a column whose type the sources do not fix. *)
Inductive sqlval : Type :=
| SqlNull
| SqlBool (b : bool)
| SqlInt (z : Z)
| SqlText (s : string).

(** Rows of table [packages]: [add_new_package] inserts the pair
    [(package, attempted)]. *)
Module Packages.
Record row := { package : string; attempted : bool }.
End Packages.

(** Rows of table [builds], with the columns the queries of the class name.
    [status] is SQL's three-valued boolean: [None] is NULL. *)
Module Builds.
Record row := {
  build_timestamp : Z;
  package : string;
  status : option bool;
  build_time : Z;
  filesize : Z
}.
End Builds.

(** Rows of table [metadata]. *)
Module Metadata.
Record row := { key : string; value : sqlval }.
End Metadata.

(** The committed content of the database, one list of rows per table (a
    heap table keeps duplicates and an order of its own). *)
Record database := {
  packages : list Packages.row;
  builds : list Builds.row;
  metadata : list Metadata.row
}.

Definition set_packages (rows : list Packages.row) (db : database) : database :=
  {| packages := rows; builds := builds db; metadata := metadata db |}.

Definition set_builds (rows : list Builds.row) (db : database) : database :=
  {| packages := packages db; builds := rows; metadata := metadata db |}.

(** ** SQL fragments used by the queries *)

(** [NOT c] in three-valued logic. *)
Definition sql_not (c : option bool) : option bool := negb <$> c.

(** [CASE WHEN c THEN v END]: NULL unless [c] is true. *)
Definition case_when {A} (c : option bool) (v : A) : option A :=
  match c with
  | Some true => Some v
  | _ => None
  end.

(** [COUNT(expr)]: the number of rows where [expr] is not NULL. *)
Definition sql_count {A} (col : list (option A)) : Z :=
  Z.of_nat (length (List.filter (fun o => match o with Some _ => true | None => false end) col)).

(** [COUNT( * )] *)
Definition sql_count_star {R} (rows : list R) : Z := Z.of_nat (length rows).

(** [WHERE c]: keeps the rows on which the condition is true (not false,
    not NULL). *)
Definition sql_where {R} (c : R -> option bool) (rows : list R) : list R :=
  List.filter (fun r => match c r with Some true => true | _ => false end) rows.

(** [ORDER BY], as a stable insertion sort; [before r x] says that [r] may
    stand before [x]. (Which of several rows with equal keys comes first is
    left open by SQL; here it is the one met first in the table.) *)
Fixpoint insert_sorted {R} (before : R -> R -> bool) (r : R) (l : list R) : list R :=
  match l with
  | [] => [r]
  | x :: l' => if before r x then r :: l else x :: insert_sorted before r l'
  end.

Definition order_by {R} (before : R -> R -> bool) (rows : list R) : list R :=
  foldr (insert_sorted before) [] rows.

(** [ORDER BY key DESC] on an integer column. *)
Definition order_by_desc {R} (key : R -> Z) : list R -> list R :=
  order_by (fun r x => (key x <=? key r)%Z).

(** [ORDER BY key] on a text column. *)
Definition order_by_text {R} (key : R -> string) : list R -> list R :=
  order_by (fun r x => String.leb (key r) (key x)).

(** [LIMIT n] *)
Definition sql_limit {R} (n : nat) (rows : list R) : list R := firstn n rows.

(** ** The cursor *)

(** The queries below are those of a session that is not inside a failed
    transaction: [execute] then gives a result set over the committed
    content. *)

(** [cursor.fetchone()]: the next row of the result set, [None] when there
    is none. *)
Definition fetchone {R} (result_set : list R) : option R := head result_set.

(** [cursor.fetchall()] *)
Definition fetchall {R} (result_set : list R) : list R := result_set.

(** [result[0]] on what [fetchone] returned, for a one-column result set:
    subscripting [None] raises [TypeError]. *)
Definition subscript0 {A} (fetched : option A) : result A :=
  match fetched with
  | Some a => Ok a
  | None => Raise TypeError
  end.

(** ** The methods *)

(** [get_package_summary] (db.py:34-45): one row [(success, fail, total)]. *)
Definition get_package_summary (db : database) : option (Z * Z * Z) :=
  let rows := builds db in
  fetchone
    [ ( sql_count (map (fun r => case_when (Builds.status r) 1%Z) rows),
        sql_count (map (fun r => case_when (sql_not (Builds.status r)) 1%Z) rows),
        sql_count_star rows ) ].

(** [get_last_package_built] (db.py:47-61) *)
Definition get_last_package_built (db : database) : result string :=
  let result_set :=
    map Builds.package
        (sql_limit 1 (order_by_desc Builds.build_timestamp (builds db))) in
  subscript0 (fetchone result_set).

(** [_get_packages_by_build_status] (db.py:63-81); the rows of the result
    have the single column [package] and are given by its value. For
    [build_status=None] the condition is the integer literal [1], which
    PostgreSQL refuses as a [WHERE] argument. *)
Definition _get_packages_by_build_status (build_status : option bool)
    (db : database) : result (list string) :=
  where_clause ←
    match build_status with
    | Some true => Ok Builds.status
    | Some false => Ok (fun r => sql_not (Builds.status r))
    | None => Raise ProgrammingError
    end;
  Ok (fetchall
        (map Builds.package
             (order_by_text Builds.package (sql_where where_clause (builds db))))).

(** The first [def get_all_packages] of the class body (db.py:83-84). *)
Definition get_all_packages_at_83 (db : database) : result (list string) :=
  _get_packages_by_build_status None db.

(** [get_built_packages] (db.py:86-87) *)
Definition get_built_packages (db : database) : result (list string) :=
  _get_packages_by_build_status (Some true) db.

(** [get_failed_packages] (db.py:89-90) *)
Definition get_failed_packages (db : database) : result (list string) :=
  _get_packages_by_build_status (Some false) db.

Section Schema.

(** Modelled from the spec: the table definitions are not among the
    sources. The specification declares [packages(package PK, ...)];
    whether that key is enforced is a parameter here, so that each
    statement says which schema it is about. *)
Variable packages_pk : bool.

(** [add_new_package] (db.py:129-140): a plain [INSERT] and a commit, on
    a session that is not inside a failed transaction. Under the primary
    key, inserting a package that is there already makes [execute] raise
    [IntegrityError]; nothing catches it, so the commit is not reached and
    the table is as before. *)
Definition add_new_package (package : string) (attempted : bool)
    (db : database) : database * result unit :=
  let values := {| Packages.package := package; Packages.attempted := attempted |} in
  if packages_pk
     && existsb (fun r => String.eqb (Packages.package r) package) (packages db)
  then (db, Raise IntegrityError)
  else (set_packages (packages db ++ [values]) db, Ok tt).

End Schema.

(** [set_package_as_attempted] (db.py:142-153). The [UPDATE] does not
    rewrite a row where it stands: PostgreSQL writes a new version of each
    row that the [WHERE] clause matches, and a later [SELECT] without
    [ORDER BY] comes to these after the rows left alone. *)
Definition set_package_as_attempted (package : string) (db : database) : database :=
  let matches := fun r => String.eqb (Packages.package r) package in
  set_packages
    (List.filter (fun r => negb (matches r)) (packages db)
     ++ map (fun r => {| Packages.package := Packages.package r;
                         Packages.attempted := true |})
            (List.filter matches (packages db)))
    db.

(** The second [def get_all_packages] of the class body (db.py:155-164):
    the generator yields [result['package']] for each fetched row. *)
Definition get_all_packages_at_155 (db : database) : list string :=
  map Packages.package (fetchall (packages db)).

(** [get_unattempted_packages] (db.py:166-179); [NOT IN] over a subquery
    without NULLs. *)
Definition get_unattempted_packages (db : database) : list string :=
  let subquery := map Builds.package (builds db) in
  map Packages.package
      (fetchall
         (sql_where
            (fun r => Some (negb (existsb (String.eqb (Packages.package r)) subquery)))
            (packages db))).

(** [get_previously_failed_packages] (db.py:181-192) *)
Definition get_previously_failed_packages (db : database) : list string :=
  map Builds.package
      (fetchall (sql_where (fun r => sql_not (Builds.status r)) (builds db))).

(** [build_active] (db.py:194-205) *)
Definition build_active (db : database) : result sqlval :=
  let result_set :=
    map Metadata.value
        (sql_where (fun r => Some (String.eqb (Metadata.key r) "active"))
                   (metadata db)) in
  subscript0 (fetchone result_set).

(** [SUM(col)]: NULL over no rows, the sum otherwise. *)
Definition sql_sum (col : list Z) : option Z :=
  match col with
  | [] => None
  | _ => Some (foldr Z.add 0%Z col)
  end.

(** [get_total_build_time] (db.py:92-101): the aggregate gives one row;
    [result[0]] is its only column, [None] for NULL. *)
Definition get_total_build_time (db : database) : result (option Z) :=
  subscript0 (fetchone [ sql_sum (map Builds.build_time (builds db)) ]).

(** [get_longest_build] (db.py:103-116): the fetched row
    [(package, build_time)] as it is, [None] when there is none. *)
Definition get_longest_build (db : database) : option (string * Z) :=
  fetchone
    (map (fun r => (Builds.package r, Builds.build_time r))
         (sql_limit 1 (order_by_desc Builds.build_time (builds db)))).

(** [get_total_wheel_filesize] (db.py:118-127) *)
Definition get_total_wheel_filesize (db : database) : result (option Z) :=
  subscript0 (fetchone [ sql_sum (map Builds.filesize (builds db)) ]).

(** ** The class namespace *)

(** The [def] statements of the class body in the order they are executed,
    each with the line it stands on. *)
Definition PiWheelsDatabase_body : list (string * nat) :=
  [ ("__init__", 6); ("log_build", 13); ("get_package_summary", 34);
    ("get_last_package_built", 47); ("_get_packages_by_build_status", 63);
    ("get_all_packages", 83); ("get_built_packages", 86);
    ("get_failed_packages", 89); ("get_total_build_time", 92);
    ("get_longest_build", 103); ("get_total_wheel_filesize", 118);
    ("add_new_package", 129); ("set_package_as_attempted", 142);
    ("get_all_packages", 155); ("get_unattempted_packages", 166);
    ("get_previously_failed_packages", 181); ("build_active", 194) ]%nat.

(** Executing a class body binds each name in turn in one namespace: a
    later [def] of a name replaces the earlier one. *)
Definition exec_class_body (body : list (string * nat)) : gmap string nat :=
  foldl (fun ns d => <[d.1 := d.2]> ns) ∅ body.

Definition PiWheelsDatabase : gmap string nat :=
  exec_class_body PiWheelsDatabase_body.

(** [db.get_all_packages()]: the attribute is looked up in the class
    namespace and the function bound there is called. *)
Definition get_all_packages (db : database) : result (list string) :=
  match PiWheelsDatabase !! "get_all_packages" with
  | Some 83%nat => get_all_packages_at_83 db
  | Some 155%nat => Ok (get_all_packages_at_155 db)
  | _ => Raise AttributeError
  end.

(** ** Statements about the methods *)

(** What the specification asks of [NEWPKG p] run twice from state [db]
    under a schema: both calls return, and the second leaves the row
    count as the first left it. *)
Definition newpkg_twice_ok (pk : bool) (p : string) (db : database) : Prop :=
  let first := add_new_package pk p false db in
  let second := add_new_package pk p false first.1 in
  first.2 = Ok tt ∧ second.2 = Ok tt ∧
  length (packages second.1) = length (packages first.1).

End Db.


(* ===================================================================== *)
(** * piwheels/slave/__init__.py *)
(* ===================================================================== *)

Module Slave.

(** ** Values on the wire *)

(** A [bytes] object, as a frame of a multipart message. *)
Abbreviation bytes := (list byte).

#[export] Instance byte_eq_dec : EqDecision byte := Byte.byte_eq_dec.

(** A bytes literal such as [b'FETCH']. *)
Definition b (s : string) : bytes := list_byte_of_string s.

#[export] Instance Q_eq_dec : EqDecision QArith_base.Q.
Proof. solve_decision. Defined.

(** The elements of a JSON message of the request/reply channel, as
    [recv_json] hands them over: [None], a [bool], an [int], a [float]
    (a finite one, given by the rational number it stands for, an infinity
    or a NaN, which [json] reads from [Infinity], [NaN] and from literals
    too large for a float), a [str] (a character is taken as a code point
    below 256), and, with their contents left out, a [list] or a
    [dict]. *)
Inductive jval : Type :=
| JNull
| JBool (v : bool)
| JInt (z : Z)
| JFloat (x : QArith_base.Q)
| JInf (negative : bool)
| JNaN
| JStr (s : string)
| JNested.

#[export] Instance jval_eq_dec : EqDecision jval.
Proof. solve_decision. Defined.

(** ** [int(...)] *)

Definition digit_of (c : byte) : option Z :=
  let n := Z.of_N (Byte.to_N c) in
  if (48 <=? n)%Z && (n <=? 57)%Z then Some (n - 48)%Z else None.

(** Decimal digits, with single underscores allowed between two digits
    (as [int] has them from Python 3.6 on). [after_digit] tells whether the
    character before was a digit: only then may the text end, or an
    underscore follow. *)
Fixpoint parse_digits (after_digit : bool) (acc : Z) (cs : bytes) : option Z :=
  match cs with
  | [] => if after_digit then Some acc else None
  | c :: cs' =>
      match digit_of c with
      | Some d => parse_digits true (10 * acc + d)%Z cs'
      | None =>
          if after_digit && bool_decide (c = "_"%byte)
          then parse_digits false acc cs'
          else None
      end
  end.

(** An optional sign, then at least one digit. *)
Definition parse_signed (cs : bytes) : option Z :=
  match cs with
  | [] => None
  | c :: cs' =>
      if decide (c = "-"%byte) then Z.opp <$> parse_digits false 0 cs'
      else if decide (c = "+"%byte) then parse_digits false 0 cs'
      else parse_digits false 0 cs
  end.

(** Whitespace that [int] skips around the digits of a [bytes] argument:
    tab, newline, vertical tab, form feed, carriage return, space. *)
Definition is_space (c : byte) : bool :=
  let n := Byte.to_N c in
  ((9 <=? n)%N && (n <=? 13)%N) || (n =? 32)%N.

(** For a [str] argument also the whitespace beyond ASCII, which below
    256 is U+0085 and U+00A0. (The separators U+001C..U+001F, whitespace
    for [str.isspace], are not skipped by [int].) *)
Definition is_space_str (c : byte) : bool :=
  let n := Byte.to_N c in
  is_space c || (n =? 133)%N || (n =? 160)%N.

Fixpoint drop_while (p : byte -> bool) (cs : bytes) : bytes :=
  match cs with
  | c :: cs' => if p c then drop_while p cs' else cs
  | [] => []
  end.

Definition strip (p : byte -> bool) (cs : bytes) : bytes :=
  rev (drop_while p (rev (drop_while p cs))).

(** [int(x)] for [bytes]: decimal digits with an optional sign and
    surrounding whitespace, [ValueError] otherwise. (The limit that CPython
    has from 3.11 on, which refuses a text of more than 4300 digits, is not
    modelled.) *)
Definition int_of_bytes (cs : bytes) : result Z :=
  match parse_signed (strip is_space cs) with
  | Some z => Ok z
  | None => Raise ValueError
  end.

(** [int(x)] for an element of a JSON message: a finite float is cut
    towards zero, an infinity raises [OverflowError], a NaN [ValueError];
    [None], a list and a dict raise [TypeError]. *)
Definition int_of_jval (v : jval) : result Z :=
  match v with
  | JInt z => Ok z
  | JBool v => Ok (if v then 1 else 0)%Z
  | JFloat x => Ok (QArith_base.Qnum x ÷ Z.pos (QArith_base.Qden x))%Z
  | JInf _ => Raise OverflowError
  | JNaN => Raise ValueError
  | JStr s =>
      match parse_signed (strip is_space_str (list_byte_of_string s)) with
      | Some z => Ok z
      | None => Raise ValueError
      end
  | JNull | JNested => Raise TypeError
  end.

(** [str(n).encode('ascii')]. (From CPython 3.11 on [str] refuses an
    integer of more than 4300 digits; that is not modelled.) *)
Definition str_of_int (n : Z) : bytes :=
  list_byte_of_string (NilZero.string_of_int (Z.to_int n)).

(** ** The builder and its files *)

(** A file produced by a build, with the attributes the slave reads;
    [content] stands for the bytes that [open()] gives access to. *)
Record PiWheelsPackage := {
  filename : string;
  filesize : Z;
  filehash : string;
  package_version_tag : string;
  py_version_tag : string;
  abi_tag : string;
  platform_tag : string;
  content : bytes
}.

(** A [PiWheelsBuilder] after [build()], with the attributes the slave
    reads. The class is a collaborator outside the sources. *)
Record PiWheelsBuilder := {
  package : string;
  version : string;
  status : bool;
  duration : Z;
  output : string;
  files : list PiWheelsPackage
}.

(** The value of one entry of the [BUILT] mapping. *)
Definition file_info : Type := Z * string * string * string * string * string.

Definition info_of (pkg : PiWheelsPackage) : file_info :=
  (filesize pkg, filehash pkg, package_version_tag pkg,
   py_version_tag pkg, abi_tag pkg, platform_tag pkg).

(** The dict comprehension [{pkg.filename: (...) for pkg in builder.files}]:
    entries are stored in iteration order, a later one replacing an earlier
    one under the same key. *)
Definition built_files (fs : list PiWheelsPackage) : gmap string file_info :=
  foldl (fun d pkg => <[filename pkg := info_of pkg]> d) ∅ fs.

(** The requests of the slave on the request/reply channel. *)
Inductive request : Type :=
| HELLO
| IDLE
| BUILT (package version : string) (status : bool) (duration : Z)
        (output : string) (files : gmap string file_info)
| SENT
| BYE.

(** ** [transfer] *)

(** A multipart message of the upload channel. *)
Abbreviation multipart := (list bytes).

(** What one turn of the loop of [transfer] gets from its socket: whether
    [poll] found a message within the timeout, and the message that
    [recv_multipart] returns. *)
Record transfer_event := {
  polled : bool;
  frames : multipart
}.

(** The binary file object [f]: its bytes and its position. *)
Record file := { data : bytes; pos : nat }.

(** [f.seek(n)], for a file opened in mode [rb] where offsets have 64
    bits: a negative position is refused, with [ValueError] when it does
    not fit an offset and with [OSError] otherwise. A position past the end
    is taken. (From some large position on, which depends on the file
    system, the operating system refuses; that is not modelled.) *)
Definition seek (n : Z) (f : file) : result file :=
  if (n <? - 2 ^ 63)%Z then Raise ValueError
  else if (n <? 0)%Z then Raise OSError
  else Ok {| data := data f; pos := Z.to_nat n |}.

(** [f.read(n)], where sizes have 64 bits: at most [n] bytes from the
    position on, all the rest for [-1]; a size below [-1] raises
    [ValueError], or [OverflowError] when it does not fit a size. The
    position moves past what was read. (From some large size on, which
    depends on the memory at hand, the buffer cannot be allocated; that is
    not modelled.) *)
Definition read (n : Z) (f : file) : result (bytes * file) :=
  if (n <? - 2 ^ 63)%Z then Raise OverflowError
  else if (n <? -1)%Z then Raise ValueError
  else
    let rest := skipn (pos f) (data f) in
    let got := if (n =? -1)%Z then rest else firstn (Z.to_nat n) rest in
    Ok (got, {| data := data f; pos := (pos f + length got)%nat |}).

(** The [FETCH] branch (slave/__init__.py:128-131): the message sent and
    the file object afterwards. *)
Definition fetch (args : multipart) (f : file) : result (multipart * file) :=
  match args with
  | [offset; size] =>
      o ← int_of_bytes offset;
      f1 ← seek o f;
      n ← int_of_bytes size;
      '(chunk, f2) ← read n f1;
      Ok ([b "CHUNK"; offset; chunk], f2)
  | _ => Raise ValueError
  end.

(** How a call of [transfer] ends: it returns, it raises, or it waits for
    a message that never comes. *)
Inductive transfer_end : Type :=
| Returned
| Raised (e : exn)
| Waiting.

(** The loop of [transfer] (slave/__init__.py:117-131) over the events of
    its socket; the result lists the messages sent. When [poll] finds
    nothing, [HELLO <slave-id>] is sent before the blocking receive. *)
Fixpoint transfer_loop (slave_id : Z) (events : list transfer_event) (f : file)
    : list multipart * transfer_end :=
  let hello := [b "HELLO"; str_of_int slave_id] in
  match events with
  | [] => ([hello], Waiting)
  | ev :: events' =>
      let prod := if polled ev then [] else [hello] in
      match frames ev with
      | [] => (prod, Raised ValueError)
      | req :: args =>
          if decide (req = b "DONE") then (prod, Returned)
          else if decide (req = b "FETCH") then
            match fetch args f with
            | Ok (msg, f') =>
                let '(sent, e) := transfer_loop slave_id events' f' in
                (prod ++ msg :: sent, e)
            | Raise e => (prod, Raised e)
            end
          else
            let '(sent, e) := transfer_loop slave_id events' f in
            (prod ++ sent, e)
      end
  end.

(** [transfer(master, slave_id, package)] *)
Definition transfer (slave_id : Z) (package : PiWheelsPackage)
    (events : list transfer_event) : list multipart * transfer_end :=
  transfer_loop slave_id events {| data := content package; pos := 0 |}.

(** ** [main] *)

(** The local variables of [main] that live across turns of its loop. *)
Record state := {
  slave_id : option Z;
  builder : option PiWheelsBuilder;
  next_request : request
}.

(** What the master side does in one turn: the reply on the request/reply
    channel and, should the slave start a transfer in that turn, the events
    on the upload channel. *)
Record exchange := {
  reply : list jval;
  juggler : list transfer_event
}.

(** How the handling of a reply ends, unless it raises: the loop goes on,
    it is left by [break], or the turn never finishes. *)
Inductive control : Type :=
| Continue (st : state)
| Break
| Hang.

Section Main.

(** The collaborators outside the sources. [build package version] is the
    builder object that [PiWheelsBuilder(package, version)] makes, as
    [build()] leaves it: how the build went is told by its [status].
    [clean()] may raise. *)
Variable build : jval -> jval -> PiWheelsBuilder.
Variable clean : PiWheelsBuilder -> result unit.

(** The body of the loop after [reply, *args = queue.recv_json()]
    (slave/__init__.py:34-102). *)
Definition handle (st : state) (x : exchange) : result control :=
  match reply x with
  | [] => Raise ValueError
  | verb :: args =>
      if decide (verb = JStr "HELLO") then
        assert (bool_decide (slave_id st = None)) "Duplicate hello";;
        assert (length args =? 1)%nat "Invalid HELLO message";;
        id ← int_of_jval (nth 0 args JNull);
        Ok (Continue {| slave_id := Some id; builder := builder st;
                        next_request := IDLE |})
      else if decide (verb = JStr "SLEEP") then
        assert (bool_decide (slave_id st ≠ None)) "Sleep before hello";;
        assert (length args =? 0)%nat "Invalid SLEEP message";;
        Ok (Continue {| slave_id := slave_id st; builder := builder st;
                        next_request := IDLE |})
      else if decide (verb = JStr "BUILD") then
        assert (bool_decide (slave_id st ≠ None)) "Build before hello";;
        assert (bool_decide (builder st = None)) "Last build still exists";;
        assert (length args =? 2)%nat "Invalid BUILD message";;
        let bld := build (nth 0 args JNull) (nth 1 args JNull) in
        Ok (Continue {| slave_id := slave_id st; builder := Some bld;
                        next_request :=
                          BUILT (package bld) (version bld) (status bld)
                                (duration bld) (output bld)
                                (built_files (files bld)) |})
      else if decide (verb = JStr "SEND") then
        assert (bool_decide (slave_id st ≠ None)) "Send before hello";;
        assert (bool_decide (builder st ≠ None))
               "Send before build / after failed build";;
        assert (from_option status false (builder st)) "Send after failed build";;
        assert (length args =? 1)%nat "Invalid SEND messsage";;
        pkg ← match List.filter
                      (fun f => bool_decide (JStr (filename f) = nth 0 args JNull))
                      (from_option files [] (builder st))
              with
              | pkg :: _ => Ok pkg
              | [] => Raise IndexError
              end;
        match (transfer (default 0%Z (slave_id st)) pkg (juggler x)).2 with
        | Returned =>
            Ok (Continue {| slave_id := slave_id st; builder := builder st;
                            next_request := SENT |})
        | Raised e => Raise e
        | Waiting => Ok Hang
        end
      else if decide (verb = JStr "DONE") then
        assert (bool_decide (slave_id st ≠ None)) "Okay before hello";;
        assert (bool_decide (builder st ≠ None)) "Okay before build";;
        assert (length args =? 0)%nat "Invalid DONE message";;
        from_option clean (Ok tt) (builder st);;
        Ok (Continue {| slave_id := slave_id st; builder := None;
                        next_request := IDLE |})
      else if decide (verb = JStr "BYE") then
        Ok Break
      else
        Raise (AssertionError "Invalid message from master")
  end.

(** What [queue.recv_json()] and the unpacking [reply, *args = ...]
    (slave/__init__.py:34) come to in one turn of the loop:
    - a message arrives and is unpacked, and the master side acts as [x]
      says;
    - a message arrives, but it cannot be decoded or unpacked (it is not
      JSON, or not a sequence, or an empty one), which raises [e];
    - no message has arrived when [recv_json] is cut short by [e] (an
      interrupt, an error of the socket): the request of this turn is still
      unanswered. *)
Inductive turn : Type :=
| Reply (x : exchange)
| Unreadable (e : exn)
| Interrupted (e : exn).

(** How a session on the request/reply channel ends: the socket is
    closed, after a [break] or while the exception [raised] propagates; the
    [finally] block itself raises, before anything is closed; or the slave
    waits for a message that never comes. *)
Inductive session_end : Type :=
| Closed (raised : option exn)
| Unclosed (raised : exn)
| Blocked.

(** The [finally] block (slave/__init__.py:103-106): [BYE] is sent, then
    the socket is closed. The socket is of type [REQ] (line 26), which
    sends and receives in turn: while the last request is unanswered
    ([awaiting_reply]) it takes no other, [send_json] raises, and the lines
    after it are not reached. *)
Definition finally (awaiting_reply : bool) (raised : option exn)
    : list request * session_end :=
  if awaiting_reply then ([], Unclosed ZMQError) else ([BYE], Closed raised).

(** The loop of [main] (slave/__init__.py:32-102) with its [finally]
    block, over what happens turn by turn. The result lists the requests
    sent on the request/reply channel. A request holds JSON values only
    and goes out on a connected socket whose turn it is to send:
    [send_json] in the loop queues it and returns. When the master side
    has nothing more to say, [recv_json] does not return. *)
Fixpoint main_loop (script : list turn) (st : state)
    : list request * session_end :=
  match script with
  | [] => ([next_request st], Blocked)
  | Interrupted err :: _ =>
      let '(sent, e) := finally true (Some err) in (next_request st :: sent, e)
  | Unreadable err :: _ =>
      let '(sent, e) := finally false (Some err) in (next_request st :: sent, e)
  | Reply x :: script' =>
      match handle st x with
      | Ok (Continue st') =>
          let '(sent, e) := main_loop script' st' in
          (next_request st :: sent, e)
      | Ok Break =>
          let '(sent, e) := finally false None in (next_request st :: sent, e)
      | Ok Hang => ([next_request st], Blocked)
      | Raise err =>
          let '(sent, e) := finally false (Some err) in
          (next_request st :: sent, e)
      end
  end.

(** The variables of [main] when the loop is entered
    (slave/__init__.py:24-25, 31). *)
Definition initial : state :=
  {| slave_id := None; builder := None; next_request := HELLO |}.

(** [main] (slave/__init__.py:20-106) *)
Definition main (script : list turn) : list request * session_end :=
  main_loop script initial.

End Main.

(** ** Statements about the slave *)

(** What holds of the variables of [main] whenever a request is about to be
    sent from the loop: [HELLO] goes out only before registration, a
    [BUILT] describes the builder at hand, [SENT] follows a transfer from
    a successful build, and [BYE] is never the request of the loop. *)
Definition consistent (st : state) : Prop :=
  match next_request st with
  | HELLO => slave_id st = None
  | IDLE => slave_id st ≠ None
  | BUILT p v s d o fs =>
      slave_id st ≠ None ∧
      ∃ bld, builder st = Some bld ∧
             p = package bld ∧ v = version bld ∧ s = status bld ∧
             d = duration bld ∧ o = output bld ∧ fs = built_files (files bld)
  | SENT => slave_id st ≠ None ∧ ∃ bld, builder st = Some bld ∧ status bld = true
  | BYE => False
  end.

(** The requests of the file juggler for a file cut into pieces of the
    given sizes, from [offset] on, and [DONE] after the last one. *)
Fixpoint fetch_requests (offset : nat) (sizes : list nat) : list multipart :=
  match sizes with
  | [] => [[b "DONE"]]
  | n :: sizes' =>
      [b "FETCH"; str_of_int (Z.of_nat offset); str_of_int (Z.of_nat n)]
        :: fetch_requests (offset + n) sizes'
  end.

(** The bytes that the [CHUNK] messages among [sent] carry, in order. *)
Definition payloads (sent : list multipart) : bytes :=
  concat (map (fun m => match m with
                        | [verb; _; payload] =>
                            if decide (verb = b "CHUNK") then payload else []
                        | _ => []
                        end) sent).

(** The state of the loop after the replies of [script], if each of them
    is handled without leaving the loop. *)
Fixpoint after (build : jval -> jval -> PiWheelsBuilder)
    (clean : PiWheelsBuilder -> result unit)
    (script : list exchange) (st : state) : option state :=
  match script with
  | [] => Some st
  | x :: script' =>
      match handle build clean st x with
      | Ok (Continue st') => after build clean script' st'
      | _ => None
      end
  end.

(** What is sent last in a session: [BYE] when the socket is closed. *)
Definition closing (e : session_end) : list request :=
  match e with
  | Closed _ => [BYE]
  | Unclosed _ | Blocked => []
  end.

(** What a message of the slave on the upload channel looks like, given
    the events of the channel and the bytes of the file: [HELLO] with the
    id, or a [CHUNK] of three frames whose offset frame came with a
    [FETCH] and whose payload is a run of bytes of the file from that
    offset on. *)
Definition upload_shape (id : Z) (events : list transfer_event)
    (file_bytes : bytes) (m : multipart) : Prop :=
  m = [b "HELLO"; str_of_int id] ∨
  ∃ offset o payload,
    m = [b "CHUNK"; offset; payload] ∧
    (∃ ev size, ev ∈ events ∧ frames ev = [b "FETCH"; offset; size]) ∧
    int_of_bytes offset = Ok o ∧ (0 ≤ o)%Z ∧
    payload `prefix_of` drop (Z.to_nat o) file_bytes.

End Slave.

(* ===================================================================== *)
(** * The index scribe *)
(* ===================================================================== *)

Module Scribe.

(** Text, as a list of characters; a character of a Python string is taken
    as a code point below 256. *)
Abbreviation text := (list ascii).

Definition dquote : ascii := Eval cbv in ascii_of_N 34.
Definition backslash : ascii := Eval cbv in ascii_of_N 92.

(** The Python values that occur in the messages of the index queue: the
    JSON scalars, and a complex number as the value that JSON cannot
    hold. *)
Inductive pyval : Type :=
| PyNone
| PyBool (v : bool)
| PyInt (z : Z)
| PyStr (s : string)
| PyComplex (re im : Z).

(** What [json.load] returns, on the fragment of JSON without objects and
    without fractional numbers: [None], a bool, an int, a str or a list. *)
#[warnings="-register-all"] Inductive json : Type :=
| JsNull
| JsBool (v : bool)
| JsNum (z : Z)
| JsString (s : string)
| JsArray (items : list json).

(** ** Writing JSON *)

Fixpoint chars_of_uint (d : Decimal.uint) : text :=
  match d with
  | Decimal.Nil => []
  | Decimal.D0 d => "0"%char :: chars_of_uint d
  | Decimal.D1 d => "1"%char :: chars_of_uint d
  | Decimal.D2 d => "2"%char :: chars_of_uint d
  | Decimal.D3 d => "3"%char :: chars_of_uint d
  | Decimal.D4 d => "4"%char :: chars_of_uint d
  | Decimal.D5 d => "5"%char :: chars_of_uint d
  | Decimal.D6 d => "6"%char :: chars_of_uint d
  | Decimal.D7 d => "7"%char :: chars_of_uint d
  | Decimal.D8 d => "8"%char :: chars_of_uint d
  | Decimal.D9 d => "9"%char :: chars_of_uint d
  end.

(** An int in decimal, with [-] for a negative one. *)
Definition encode_int (z : Z) : text :=
  match Z.to_int z with
  | Decimal.Pos d => chars_of_uint d
  | Decimal.Neg d => "-"%char :: chars_of_uint d
  end.

Definition hex_digit (n : N) : ascii :=
  ascii_of_N (if (n <? 10)%N then 48 + n else 87 + n).

(** One character of a string literal, as [json] writes it with
    [ensure_ascii]: printable ASCII as it is, the quote and the backslash
    behind a backslash, the short escapes, and [\u00xx] for the rest. *)
Definition escape_char (c : ascii) : text :=
  let n := N_of_ascii c in
  if (n =? 34)%N then [backslash; dquote]
  else if (n =? 92)%N then [backslash; backslash]
  else if (n =? 10)%N then [backslash; "n"%char]
  else if (n =? 13)%N then [backslash; "r"%char]
  else if (n =? 9)%N then [backslash; "t"%char]
  else if (n =? 8)%N then [backslash; "b"%char]
  else if (n =? 12)%N then [backslash; "f"%char]
  else if (32 <=? n)%N && (n <=? 126)%N then [c]
  else [backslash; "u"%char; "0"%char; "0"%char;
        hex_digit (n / 16); hex_digit (n mod 16)].

Definition encode_string (s : string) : text :=
  dquote :: concat (map escape_char (list_ascii_of_string s)) ++ [dquote].

(** A scalar; a value that is not serializable raises [TypeError]. *)
Definition encode_scalar (v : pyval) : result text :=
  match v with
  | PyNone => Ok (list_ascii_of_string "null")
  | PyBool true => Ok (list_ascii_of_string "true")
  | PyBool false => Ok (list_ascii_of_string "false")
  | PyInt z => Ok (encode_int z)
  | PyStr s => Ok (encode_string s)
  | PyComplex _ _ => Raise TypeError
  end.

(** Output as a stream: the text written so far and the exception that
    stopped the writing, if any. *)
Definition stream : Type := text * option exn.

Definition emit (t : text) : stream := (t, None).

Definition then_ (w1 w2 : stream) : stream :=
  match w1.2 with
  | Some e => w1
  | None => (w1.1 ++ w2.1, w2.2)
  end.

(** [json.dump] writes chunk by chunk: the bracket or separator that
    stands before an item is written before the item is looked at. *)
Definition dump_scalar (before : text) (v : pyval) : stream :=
  match encode_scalar v with
  | Ok t => emit (before ++ t)
  | Raise e => (before, Some e)
  end.

Section Dump.

(** The item separator: a comma, followed by the white space that the
    caller of [json.dump] chose ([", "] unless [separators] is given). *)
Variable sep_space : text.

Definition item_separator : text := ","%char :: sep_space.

(** A tuple [(name, count)] is written as an array of two items. *)
Definition dump_pair (before : text) (p : pyval * pyval) : stream :=
  then_ (emit before)
    (then_ (dump_scalar ["["%char] p.1)
       (then_ (dump_scalar item_separator p.2) (emit ["]"%char]))).

Fixpoint dump_pairs (before : text) (ps : list (pyval * pyval)) : stream :=
  match ps with
  | [] => emit ["]"%char]
  | p :: ps' => then_ (dump_pair before p) (dump_pairs item_separator ps')
  end.

(** [json.dump(search_index, file)] for a list of pairs. *)
Definition json_dump (ps : list (pyval * pyval)) : stream :=
  match ps with
  | [] => emit (list_ascii_of_string "[]")
  | _ => dump_pairs ["["%char] ps
  end.

End Dump.

(** ** Reading JSON *)

Definition is_ws (c : ascii) : bool :=
  let n := N_of_ascii c in
  (n =? 32)%N || (n =? 9)%N || (n =? 10)%N || (n =? 13)%N.

Fixpoint skip_ws (s : text) : text :=
  match s with
  | c :: s' => if is_ws c then skip_ws s' else s
  | [] => []
  end.

(** [strip_prefix p s]: what follows [p] in [s], if [s] starts with [p]. *)
Fixpoint strip_prefix (p s : text) : option text :=
  match p, s with
  | [], _ => Some s
  | a :: p', c :: s' => if Ascii.eqb a c then strip_prefix p' s' else None
  | _ :: _, [] => None
  end.

Definition digit_ctor (c : ascii) : option (Decimal.uint -> Decimal.uint) :=
  match N_of_ascii c with
  | 48%N => Some Decimal.D0
  | 49%N => Some Decimal.D1
  | 50%N => Some Decimal.D2
  | 51%N => Some Decimal.D3
  | 52%N => Some Decimal.D4
  | 53%N => Some Decimal.D5
  | 54%N => Some Decimal.D6
  | 55%N => Some Decimal.D7
  | 56%N => Some Decimal.D8
  | 57%N => Some Decimal.D9
  | _ => None
  end.

(** The longest run of digits at the head of the text. *)
Fixpoint read_digits (s : text) : Decimal.uint * text :=
  match s with
  | c :: s' =>
      match digit_ctor c with
      | Some k => let '(d, r) := read_digits s' in (k d, r)
      | None => (Decimal.Nil, s)
      end
  | [] => (Decimal.Nil, [])
  end.

(** The integer part of a number: [0], or a run of digits that does not
    start with [0]. *)
Definition read_int_part (s : text) : option (Decimal.uint * text) :=
  match s with
  | c :: s' =>
      if Ascii.eqb c "0" then Some (Decimal.D0 Decimal.Nil, s')
      else
        match read_digits s with
        | (Decimal.Nil, _) => None
        | (d, r) => Some (d, r)
        end
  | [] => None
  end.

(** A fraction or an exponent makes the number a float, which is outside
    the fragment. *)
Definition starts_float_part (s : text) : bool :=
  match s with
  | c :: _ => Ascii.eqb c "." || Ascii.eqb c "e" || Ascii.eqb c "E"
  | [] => false
  end.

Definition parse_number (s : text) : option (Z * text) :=
  '(negative, s1) ←
    match s with
    | c :: s' => if Ascii.eqb c "-" then Some (true, s') else Some (false, s)
    | [] => None
    end;
  '(d, r) ← read_int_part s1;
  if starts_float_part r then None
  else Some (Z.of_int (if negative : bool then Decimal.Neg d else Decimal.Pos d), r).

(** The first character of a number. *)
Definition starts_number (c : ascii) : bool :=
  Ascii.eqb c "-" || bool_decide (is_Some (digit_ctor c)).

(** The text after a number: it neither continues the digits nor turns
    the number into a float. *)
Definition ends_number (r : text) : bool :=
  match r with
  | [] => true
  | c :: _ => negb (bool_decide (is_Some (digit_ctor c))) && negb (starts_float_part r)
  end.

Definition hex_value (c : ascii) : option N :=
  let n := N_of_ascii c in
  if (48 <=? n)%N && (n <=? 57)%N then Some (n - 48)%N
  else if (97 <=? n)%N && (n <=? 102)%N then Some (n - 87)%N
  else if (65 <=? n)%N && (n <=? 70)%N then Some (n - 55)%N
  else None.

(** The character that a one-letter escape stands for. *)
Definition unescape (c : ascii) : option ascii :=
  let n := N_of_ascii c in
  if (n =? 34)%N then Some dquote
  else if (n =? 92)%N then Some backslash
  else if (n =? 47)%N then Some "/"%char
  else if (n =? 110)%N then Some (ascii_of_N 10)
  else if (n =? 114)%N then Some (ascii_of_N 13)
  else if (n =? 116)%N then Some (ascii_of_N 9)
  else if (n =? 98)%N then Some (ascii_of_N 8)
  else if (n =? 102)%N then Some (ascii_of_N 12)
  else None.

(** The characters of a string literal after its opening quote, up to the
    closing one. A control character has to be escaped; [\uxxxx] beyond
    code point 255 is outside the fragment. *)
Fixpoint parse_string_body (s : text) : option (text * text) :=
  match s with
  | [] => None
  | c :: s' =>
      let n := N_of_ascii c in
      if (n =? 34)%N then Some ([], s')
      else if (n =? 92)%N then
        match s' with
        | [] => None
        | e :: s'' =>
            if Ascii.eqb e "u" then
              match s'' with
              | h1 :: h2 :: h3 :: h4 :: s3 =>
                  match hex_value h1, hex_value h2, hex_value h3, hex_value h4 with
                  | Some a1, Some a2, Some a3, Some a4 =>
                      let cp := (((a1 * 16 + a2) * 16 + a3) * 16 + a4)%N in
                      if (cp <? 256)%N then
                        '(cs, r) ← parse_string_body s3; Some (ascii_of_N cp :: cs, r)
                      else None
                  | _, _, _, _ => None
                  end
              | _ => None
              end
            else
              match unescape e with
              | Some c' => '(cs, r) ← parse_string_body s''; Some (c' :: cs, r)
              | None => None
              end
        end
      else if (n <? 32)%N then None
      else '(cs, r) ← parse_string_body s'; Some (c :: cs, r)
  end.

(** A value, and the items of an array after its opening bracket, by
    recursive descent; [fuel] bounds the depth of the recursion. *)
Fixpoint parse_value (fuel : nat) (s : text) : option (json * text) :=
  match fuel with
  | O => None
  | S fuel' =>
      match skip_ws s with
      | [] => None
      | c :: s1 =>
          if Ascii.eqb c "[" then
            match skip_ws s1 with
            | c2 :: s2 =>
                if Ascii.eqb c2 "]" then Some (JsArray [], s2)
                else '(items, r) ← parse_items fuel' s1; Some (JsArray items, r)
            | [] => None
            end
          else if Ascii.eqb c dquote then
            '(cs, r) ← parse_string_body s1; Some (JsString (string_of_list_ascii cs), r)
          else if Ascii.eqb c "n" then
            r ← strip_prefix (list_ascii_of_string "ull") s1; Some (JsNull, r)
          else if Ascii.eqb c "t" then
            r ← strip_prefix (list_ascii_of_string "rue") s1; Some (JsBool true, r)
          else if Ascii.eqb c "f" then
            r ← strip_prefix (list_ascii_of_string "alse") s1; Some (JsBool false, r)
          else
            '(z, r) ← parse_number (c :: s1); Some (JsNum z, r)
      end
  end
with parse_items (fuel : nat) (s : text) : option (list json * text) :=
  match fuel with
  | O => None
  | S fuel' =>
      '(v, s1) ← parse_value fuel' s;
      match skip_ws s1 with
      | c :: s2 =>
          if Ascii.eqb c "," then
            '(vs, r) ← parse_items fuel' s2; Some (v :: vs, r)
          else if Ascii.eqb c "]" then Some ([v], s2)
          else None
      | [] => None
      end
  end.

(** [json.load] on the content of a file: one value, with nothing but
    white space after it. *)
Definition json_load (file : string) : option json :=
  let s := list_ascii_of_string file in
  '(v, r) ← parse_value (S (length s)) s;
  match skip_ws r with
  | [] => Some v
  | _ => None
  end.

(** ** The output tree and the index writes *)

(** The output tree: the files under the output path, by their path
    relative to it. *)
Abbreviation tree := (gmap string string).

(** [os.rename(src, dst)]: [dst] is replaced in one step. *)
Definition rename (src dst : string) (fs : tree) : tree :=
  match fs !! src with
  | Some c => <[dst := c]> (delete src fs)
  | None => fs
  end.

(** [str(v)], as [format] puts a value into a template. *)
Definition py_str (v : pyval) : text :=
  match v with
  | PyNone => list_ascii_of_string "None"
  | PyBool true => list_ascii_of_string "True"
  | PyBool false => list_ascii_of_string "False"
  | PyInt z => encode_int z
  | PyStr s => list_ascii_of_string s
  | PyComplex re im =>
      if (re =? 0)%Z then encode_int im ++ ["j"%char]
      else "("%char :: encode_int re
             ++ (if (0 <=? im)%Z then ["+"%char] else [])
             ++ encode_int im ++ list_ascii_of_string "j)"
  end.

(** A template: literal text and replacement fields. *)
Inductive segment : Type :=
| Lit (t : string)
| Field (name : string).

(** [template.format( **stats )]: the fields are filled in from left to
    right; one that the mapping lacks raises [KeyError]. *)
Fixpoint render (template : list segment) (stats : gmap string pyval) : result text :=
  match template with
  | [] => Ok []
  | Lit t :: template' =>
      rest ← render template' stats; Ok (list_ascii_of_string t ++ rest)
  | Field name :: template' =>
      match stats !! name with
      | Some v => rest ← render template' stats; Ok (py_str v ++ rest)
      | None => Raise (KeyError name)
      end
  end.

(** The fields that the homepage needs. *)
Definition homepage_fields : list string :=
  ["packages_built"; "files_count"; "downloads_last_month"].

(** The messages of the index queue that write a single file. *)
Inductive index_msg : Type :=
| HOME (stats : gmap string pyval)
| SEARCH (search_index : list (pyval * pyval)).

Section Writes.

(** Modelled from the spec: the scribe ([piwheels/master/index_scribe.py])
    is not among the sources. From the specification: every index write
    lands on a sibling temporary path and is renamed over the final
    path; [HOME stats] renders [index.html] from a template that uses
    the fields [packages_built], [files_count] and
    [downloads_last_month], a missing field being a fatal error with no
    file written; [SEARCH] writes [packages.json] as an array of
    [[name, count]] pairs, and a value that cannot be serialized fails
    the write. The name of the temporary path, the text of the template
    and the white space after a comma are not given there; they are
    parameters. *)
Variable tmp_path : string -> string.
Variable homepage_template : list segment.
Variable sep_space : text.

(** An index write: what the writer produces goes to the temporary path;
    when the writer is done the temporary is renamed over the final path,
    when it raises the write is aborted and the temporary discarded. *)
Definition atomic_write (path : string) (w : stream) (fs : tree) : tree * result unit :=
  let tmp := tmp_path path in
  let fs1 := <[tmp := string_of_list_ascii w.1]> fs in
  match w.2 with
  | None => (rename tmp path fs1, Ok tt)
  | Some e => (delete tmp fs1, Raise e)
  end.

Definition write_homepage (stats : gmap string pyval) (fs : tree) : tree * result unit :=
  atomic_write "index.html"
    (match render homepage_template stats with
     | Ok t => emit t
     | Raise e => ([], Some e)
     end)
    fs.

Definition write_search_index (search_index : list (pyval * pyval)) (fs : tree)
    : tree * result unit :=
  atomic_write "packages.json" (json_dump sep_space search_index) fs.

(** The handler of the index queue, for the two verbs above. *)
Definition handle_index (msg : index_msg) (fs : tree) : tree * result unit :=
  match msg with
  | HOME stats => write_homepage stats fs
  | SEARCH search_index => write_search_index search_index fs
  end.

End Writes.

(** The file that a message writes. *)
Definition target (msg : index_msg) : string :=
  match msg with
  | HOME _ => "index.html"
  | SEARCH _ => "packages.json"
  end.

(** What the reader of [packages.json] expects for a search index:
    [[list(i) for i in search_index]]. *)
Definition json_of_scalar (v : pyval) : option json :=
  match v with
  | PyNone => Some JsNull
  | PyBool v => Some (JsBool v)
  | PyInt z => Some (JsNum z)
  | PyStr s => Some (JsString s)
  | PyComplex _ _ => None
  end.

Definition json_of_pair (p : pyval * pyval) : option json :=
  k ← json_of_scalar p.1; v ← json_of_scalar p.2; Some (JsArray [k; v]).

Definition json_of_search_index (ps : list (pyval * pyval)) : option json :=
  JsArray <$> mapM json_of_pair ps.

Definition serializable (v : pyval) : bool :=
  match v with PyComplex _ _ => false | _ => true end.

Definition serializable_pair (p : pyval * pyval) : bool :=
  serializable p.1 && serializable p.2.

(** The text of a search index whose values are all serializable. *)
Definition scalar_text (v : pyval) : text :=
  match encode_scalar v with Ok t => t | Raise _ => [] end.

Definition pair_text (sep_space : text) (p : pyval * pyval) : text :=
  "["%char :: scalar_text p.1 ++ item_separator sep_space
           ++ scalar_text p.2 ++ ["]"%char].

Fixpoint rest_text (sep_space : text) (ps : list (pyval * pyval)) : text :=
  match ps with
  | [] => ["]"%char]
  | p :: ps' =>
      item_separator sep_space ++ pair_text sep_space p ++ rest_text sep_space ps'
  end.

Definition search_index_text (sep_space : text) (ps : list (pyval * pyval)) : text :=
  match ps with
  | [] => list_ascii_of_string "[]"
  | p :: ps' => "["%char :: pair_text sep_space p ++ rest_text sep_space ps'
  end.

End Scribe.

(* ===================================================================== *)
(** * Sample data *)
(* ===================================================================== *)

Module Sample.
Import Db Slave Scribe.

Definition empty_db : database :=
  {| packages := []; builds := []; metadata := [] |}.

Definition build_row (t : Z) (p : string) (ok : bool) : Builds.row :=
  {| Builds.build_timestamp := t; Builds.package := p;
     Builds.status := Some ok; Builds.build_time := 300;
     Builds.filesize := 123456 |}.

Definition some_db : database :=
  {| packages := [ {| Packages.package := "foo"; Packages.attempted := true |};
                   {| Packages.package := "bar"; Packages.attempted := false |} ];
     builds := [ build_row 10 "foo" true; build_row 30 "foo" false;
                 build_row 20 "baz" true ];
     metadata := [ {| Metadata.key := "active"; Metadata.value := SqlBool true |} ] |}.

Definition wheel (name : string) (bytes_ : string) : PiWheelsPackage :=
  {| filename := name; filesize := Z.of_nat (String.length bytes_);
     filehash := "123456abcdef"; package_version_tag := "0.1";
     py_version_tag := "cp34"; abi_tag := "cp34m";
     platform_tag := "linux_armv7l"; content := b bytes_ |}.

Definition foo_wheel : PiWheelsPackage :=
  wheel "foo-0.1-cp34-cp34m-linux_armv7l.whl" "abcdefgh".

Definition foo_builder : PiWheelsBuilder :=
  {| package := "foo"; version := "0.1"; status := true; duration := 300;
     output := "log"; files := [foo_wheel] |}.

(** A builder that builds [foo] and fails at everything else. *)
Definition build (package version : jval) : PiWheelsBuilder :=
  if decide (package = JStr "foo") then foo_builder
  else {| package := match package with JStr s => s | _ => "?" end;
          version := match version with JStr s => s | _ => "?" end;
          status := false; duration := 1; output := "no such package";
          files := [] |}.

Definition clean (_ : PiWheelsBuilder) : result unit := Ok tt.

Definition says (r : list jval) : exchange := {| reply := r; juggler := [] |}.

Definition upload : list transfer_event :=
  [ {| polled := false; frames := [b "FETCH"; b "0"; b "5"] |};
    {| polled := true; frames := [b "FETCH"; b "5"; b "3"] |};
    {| polled := true; frames := [b "DONE"] |} ].

(** The master side of a session with one build and one upload. *)
Definition happy_path : list exchange :=
  [ says [JStr "HELLO"; JInt 3];
    says [JStr "BUILD"; JStr "foo"; JStr "0.1"];
    {| reply := [JStr "SEND"; JStr "foo-0.1-cp34-cp34m-linux_armv7l.whl"];
       juggler := upload |};
    says [JStr "DONE"];
    says [JStr "SLEEP"];
    says [JStr "BYE"] ].

(** The slave before [HELLO]. *)
Definition unregistered : state :=
  {| slave_id := None; builder := None; next_request := HELLO |}.

(** The slave after [HELLO], and after the build of [foo]. *)
Definition registered : state :=
  {| slave_id := Some 3%Z; builder := None; next_request := IDLE |}.

Definition after_build : state :=
  {| slave_id := Some 3%Z; builder := Some foo_builder;
     next_request := BUILT "foo" "0.1" true 300 "log"
                           (built_files [foo_wheel]) |}.

Definition tmp_path (p : string) : string := "." +:+ p +:+ ".tmp".

Definition homepage_template : list segment :=
  [ Lit "<p>"; Field "packages_built"; Lit " packages, ";
    Field "files_count"; Lit " files, ";
    Field "downloads_last_month"; Lit " downloads</p>" ].

Definition stats : gmap string pyval :=
  <["packages_built" := PyInt 123]>
    (<["files_count" := PyInt 234]>
       (<["downloads_last_month" := PyInt 345]> ∅)).

Definition search_index : list (pyval * pyval) :=
  [ (PyStr "foo", PyInt 10); (PyStr "bar", PyInt 1) ].

Definition bad_search_index : list (pyval * pyval) :=
  [ (PyStr "foo", PyInt 10); (PyStr "bar", PyComplex 1 2) ].

End Sample.

(* ===================================================================== *)
(** * Properties of the database layer *)
(* ===================================================================== *)

Section DbProperties.
Import Db.

Example get_all_packages_sample :
  get_all_packages Sample.some_db = Ok ["foo"; "bar"].
Proof. reflexivity. Qed.

Example get_package_summary_sample :
  get_package_summary Sample.some_db = Some (2, 1, 3)%Z.
Proof. reflexivity. Qed.

Example get_last_package_built_sample :
  get_last_package_built Sample.some_db = Ok "foo".
Proof. reflexivity. Qed.

(** The name [get_all_packages] is bound twice in the class body; the
    binding that stays is the one of line 155. *)
Lemma get_all_packages_binding :
  PiWheelsDatabase !! "get_all_packages" = Some 155%nat.
Proof. reflexivity. Qed.

Lemma get_all_packages_eq (db : database) :
  get_all_packages db = Ok (map Packages.package (packages db)).
Proof. unfold get_all_packages. rewrite get_all_packages_binding. reflexivity. Qed.

(** C1: for every database state, the reply of [get_all_packages] holds,
    as a set, exactly the package values of table [packages]; the
    function in force is the second definition of the class body, and
    the reply does not depend on table [builds]. *)
Theorem get_all_packages_is_packages_table (db : database) :
  PiWheelsDatabase !! "get_all_packages" = Some 155%nat ∧
  ∃ reply : list string,
    get_all_packages db = Ok reply ∧
    (list_to_set reply : gset string)
      = list_to_set (map Packages.package (packages db)) ∧
    (∀ p : string,
       p ∈ (list_to_set reply : gset string)
       ↔ ∃ r, r ∈ packages db ∧ Packages.package r = p) ∧
    (∀ rows : list Builds.row, get_all_packages (set_builds rows db) = Ok reply).
Proof.
  split; [apply get_all_packages_binding|].
  exists (map Packages.package (packages db)).
  split; [apply get_all_packages_eq|].
  split; [reflexivity|].
  split.
  - intros p. rewrite elem_of_list_to_set, list_elem_of_fmap.
    split; [intros (r & -> & Hr); eauto | intros (r & Hr & <-); eauto].
  - intros rows. rewrite (get_all_packages_eq (set_builds rows db)). reflexivity.
Qed.

(** The first definition, had it stayed, would answer differently. *)
Lemma first_definition_differs :
  get_all_packages_at_83 Sample.some_db ≠ get_all_packages Sample.some_db.
Proof. discriminate. Qed.

(** Under the primary key the reply has no duplicates. *)
Lemma get_all_packages_NoDup (db : database) :
  NoDup (map Packages.package (packages db)) →
  ∃ reply, get_all_packages db = Ok reply ∧ NoDup reply.
Proof. intros H. eexists. split; [apply get_all_packages_eq|exact H]. Qed.

(** C2, as stated, fails on an empty table, whether the primary key is
    enforced (the second call raises) or not (the second call adds a
    row). *)
Lemma newpkg_twice_counterexample :
  ¬ newpkg_twice_ok true "foo" Sample.empty_db ∧
  ¬ newpkg_twice_ok false "foo" Sample.empty_db.
Proof.
  split; intros (_ & H2 & H3); cbn in *; discriminate.
Qed.

Lemma existsb_package_app (p : string) (rows : list Packages.row) (a : bool) :
  existsb (fun r => String.eqb (Packages.package r) p)
          (rows ++ [ {| Packages.package := p; Packages.attempted := a |} ]) = true.
Proof.
  rewrite existsb_app. cbn. rewrite String.eqb_refl.
  apply orb_true_iff. right. reflexivity.
Qed.

Lemma existsb_package_spec (p : string) (rows : list Packages.row) :
  existsb (fun r => String.eqb (Packages.package r) p) rows = true
  ↔ p ∈ map Packages.package rows.
Proof.
  rewrite existsb_exists, list_elem_of_fmap. split.
  - intros (r & Hin & Heq). apply String.eqb_eq in Heq.
    exists r. split; [done|]. by apply list_elem_of_In.
  - intros (r & -> & Hin). exists r. split; [by apply list_elem_of_In|].
    apply String.eqb_refl.
Qed.

(** C2 (amended): with the primary key enforced and [p] not yet in the
    table, the first [NEWPKG p] returns and adds one row, and the second
    does not return: its [INSERT] raises [IntegrityError] and leaves the
    table, hence the row count, as the first call left it. With [p] in the
    table already, the first call fails that way. Without the key both
    calls return and each adds a row. *)
Theorem add_new_package_twice (pk : bool) (p : string) (attempted : bool)
    (db : database) :
  let values := {| Packages.package := p; Packages.attempted := attempted |} in
  let first := add_new_package pk p attempted db in
  let second := add_new_package pk p attempted first.1 in
  if pk then
    (p ∉ map Packages.package (packages db) →
       first = (set_packages (packages db ++ [values]) db, Ok tt) ∧
       second = (first.1, Raise IntegrityError) ∧
       length (packages first.1) = S (length (packages db)) ∧
       length (packages second.1) = length (packages first.1)) ∧
    (p ∈ map Packages.package (packages db) →
       first = (db, Raise IntegrityError))
  else
    first = (set_packages (packages db ++ [values]) db, Ok tt) ∧
    second = (set_packages (packages db ++ [values; values]) db, Ok tt) ∧
    length (packages first.1) = S (length (packages db)) ∧
    length (packages second.1) = S (length (packages first.1)).
Proof.
  destruct pk; cbn.
  - unfold add_new_package. cbn [andb]. split.
    + intros Hnew.
      destruct (existsb _ (packages db)) eqn:E;
        [by apply existsb_package_spec in E|].
      cbn. rewrite existsb_package_app. split_and!; try done.
      rewrite length_app. cbn. lia.
    + intros Hold%existsb_package_spec. by rewrite Hold.
  - unfold add_new_package, set_packages. cbn. rewrite <- app_assoc. cbn.
    split_and!; try done; rewrite !length_app; cbn; lia.
Qed.

Lemma add_new_package_twice_witness :
  add_new_package true "foo" false Sample.empty_db
  = (set_packages [ {| Packages.package := "foo"; Packages.attempted := false |} ]
                  Sample.empty_db, Ok tt) ∧
  add_new_package true "foo" false
    (add_new_package true "foo" false Sample.empty_db).1
  = ((add_new_package true "foo" false Sample.empty_db).1, Raise IntegrityError).
Proof.
  destruct (add_new_package_twice true "foo" false Sample.empty_db) as [Hnew _].
  destruct Hnew as (H1 & H2 & _).
  - cbn. apply not_elem_of_nil.
  - split; [exact H1|exact H2].
Defined.

Lemma length_filter_status (rows : list Builds.row) :
  Forall (fun r => is_Some (Builds.status r)) rows →
  (length (List.filter (fun r => bool_decide (Builds.status r = Some true)) rows)
   + length (List.filter (fun r => bool_decide (Builds.status r = Some false)) rows)
   = length rows)%nat.
Proof.
  induction 1 as [|r rows [v Hr] _ IH]; cbn; [done|].
  rewrite Hr. destruct v; repeat case_bool_decide; try done; cbn; lia.
Qed.

Lemma sql_count_case_when (c : Builds.row → option bool) (rows : list Builds.row) :
  sql_count (map (fun r => case_when (c r) 1%Z) rows)
  = Z.of_nat (length (List.filter (fun r => bool_decide (c r = Some true)) rows)).
Proof.
  unfold sql_count. f_equal.
  induction rows as [|r rows IH]; cbn; [done|].
  destruct (c r) as [[]|]; cbn; rewrite IH; done.
Qed.

(** C9: when no build row has a NULL status, [get_package_summary]
    returns one row [(success, fail, total)]: the numbers of rows with a
    true status, with a false status, and of all rows; the first two add
    up to the third. *)
Theorem get_package_summary_counts (db : database) :
  Forall (fun r => is_Some (Builds.status r)) (builds db) →
  ∃ success fail total : Z,
    get_package_summary db = Some (success, fail, total) ∧
    success = Z.of_nat (length (List.filter
                (fun r => bool_decide (Builds.status r = Some true)) (builds db))) ∧
    fail = Z.of_nat (length (List.filter
                (fun r => bool_decide (Builds.status r = Some false)) (builds db))) ∧
    total = Z.of_nat (length (builds db)) ∧
    (success + fail = total)%Z.
Proof.
  intros Hstatus. do 3 eexists. split; [reflexivity|].
  rewrite !sql_count_case_when.
  assert (Hfail : ∀ rows : list Builds.row,
    List.filter (fun r => bool_decide (sql_not (Builds.status r) = Some true)) rows
    = List.filter (fun r => bool_decide (Builds.status r = Some false)) rows).
  { intros rows. apply filter_ext. intros r.
    destruct (Builds.status r) as [[]|]; reflexivity. }
  rewrite Hfail. repeat split.
  unfold sql_count_star. rewrite <- Nat2Z.inj_add.
  f_equal. by apply length_filter_status.
Qed.

Lemma get_package_summary_counts_witness :
  get_package_summary Sample.some_db = Some (2, 1, 3)%Z.
Proof.
  destruct (get_package_summary_counts Sample.some_db) as (s & f & t & H & -> & -> & -> & _).
  - repeat constructor; eexists; reflexivity.
  - exact H.
Defined.

(** With a NULL status the two counts no longer add up to the total. *)
Example get_package_summary_null :
  get_package_summary
    (set_builds [ {| Builds.build_timestamp := 1; Builds.package := "foo";
                     Builds.status := None; Builds.build_time := 0;
                     Builds.filesize := 0 |} ] Sample.empty_db)
  = Some (0, 0, 1)%Z.
Proof. reflexivity. Qed.

Lemma sql_where_nil {R} (c : R → option bool) (rows : list R) :
  (∀ r, r ∈ rows → c r ≠ Some true) → sql_where c rows = [].
Proof.
  induction rows as [|r rows IH]; intros H; cbn; [done|].
  destruct (c r) as [[]|] eqn:E.
  - exfalso. apply (H r); [left|done].
  - apply IH. intros r' Hr'. apply H. by right.
  - apply IH. intros r' Hr'. apply H. by right.
Qed.

(** C10: on an empty [builds] table [get_last_package_built], and without
    a row of key ['active'] in [metadata] [build_active], do not return:
    [fetchone] gives [None] and the subscript raises [TypeError]. *)
Theorem no_row_raises (db : database) :
  (builds db = [] → get_last_package_built db = Raise TypeError) ∧
  ((∀ r, r ∈ metadata db → Metadata.key r ≠ "active") →
   build_active db = Raise TypeError).
Proof.
  split.
  - intros H. unfold get_last_package_built. rewrite H. reflexivity.
  - intros H. unfold build_active. rewrite sql_where_nil; [reflexivity|].
    intros r Hr Heq. apply (H r Hr). apply String.eqb_eq. congruence.
Qed.

Lemma no_row_raises_witness :
  get_last_package_built Sample.empty_db = Raise TypeError ∧
  build_active Sample.empty_db = Raise TypeError.
Proof.
  destruct (no_row_raises Sample.empty_db) as [H1 H2]. split.
  - apply H1. reflexivity.
  - apply H2. intros r Hr. inversion Hr.
Defined.

(** With a row to fetch, both return. *)
Lemma get_last_package_built_returns (db : database) :
  builds db ≠ [] → ∃ p, get_last_package_built db = Ok p.
Proof.
  unfold get_last_package_built, order_by_desc, order_by.
  destruct (builds db) as [|r rows]; [done|]. intros _. cbn.
  destruct (foldr _ [] rows) as [|x l]; cbn; [by eexists|].
  destruct (_ <=? _)%Z; cbn; by eexists.
Qed.

End DbProperties.


(* ===================================================================== *)
(** * Decimal notation *)
(* ===================================================================== *)

(** [Pos.to_uint] writes no leading zero. *)
Lemma to_uint_no_leading_zero (p : positive) (d : Decimal.uint) :
  Pos.to_uint p ≠ Decimal.D0 d.
Proof.
  intros H.
  assert (Hn : Decimal.unorm (Pos.to_uint p) = Pos.to_uint p).
  { change (Pos.to_uint p) with (N.to_uint (N.pos p)) at 2.
    rewrite <- (DecimalPos.Unsigned.of_to p).
    change (Pos.of_uint (Pos.to_uint p)) with (N.of_uint (Pos.to_uint p)).
    by rewrite DecimalN.Unsigned.to_of. }
  rewrite H in Hn. change (Decimal.unorm (Decimal.D0 d)) with (Decimal.unorm d) in Hn.
  assert (Hd : d = Decimal.Nil ∨ d ≠ Decimal.Nil) by (destruct d; auto).
  destruct Hd as [->|Hd].
  - by apply (Unsigned.to_uint_nonzero p).
  - apply DecimalFacts.nb_digits_unorm in Hd. rewrite Hn in Hd. cbn in Hd. lia.
Qed.

(* ===================================================================== *)
(** * Properties of the slave *)
(* ===================================================================== *)

Section SlaveProperties.
Import Slave.

Variable build : jval → jval → PiWheelsBuilder.
Variable clean : PiWheelsBuilder → result unit.

(** ** The [BUILT] mapping *)

Lemma built_files_snoc (fs : list PiWheelsPackage) (f : PiWheelsPackage) :
  built_files (fs ++ [f]) = <[filename f := info_of f]> (built_files fs).
Proof. unfold built_files. by rewrite foldl_app. Qed.

(** The entry under a name is the one of the last file of that name. *)
Lemma built_files_lookup (fs : list PiWheelsPackage) (fn : string) :
  built_files fs !! fn = info_of <$> last (filter (λ f, filename f = fn) fs).
Proof.
  induction fs as [|f fs IH] using rev_ind; [done|].
  rewrite built_files_snoc, filter_app, filter_cons, filter_nil.
  case_decide as Hf.
  - subst fn. by rewrite lookup_insert_eq, last_snoc.
  - rewrite lookup_insert_ne by done. by rewrite app_nil_r.
Qed.

Lemma built_files_dom (fs : list PiWheelsPackage) (fn : string) :
  is_Some (built_files fs !! fn) ↔ fn ∈ map filename fs.
Proof.
  rewrite built_files_lookup, fmap_is_Some, list_elem_of_fmap. split.
  - intros [f Hf]. apply last_Some_elem_of, list_elem_of_filter in Hf as [<- Hf].
    by exists f.
  - intros (f & -> & Hf).
    assert (Hin : f ∈ filter (λ g, filename g = filename f) fs)
      by by apply list_elem_of_filter.
    destruct (filter _ fs) as [|x l] using rev_ind; [by apply not_elem_of_nil in Hin|].
    rewrite last_snoc. by eexists.
Qed.

(** With one file per name every file has its own entry. *)
Lemma built_files_lookup_NoDup (fs : list PiWheelsPackage) (f : PiWheelsPackage) :
  NoDup (map filename fs) → f ∈ fs →
  built_files fs !! filename f = Some (info_of f).
Proof.
  induction fs as [|g fs IH] using rev_ind; intros Hnd Hin.
  - by apply not_elem_of_nil in Hin.
  - rewrite built_files_snoc. rewrite map_app in Hnd. cbn in Hnd.
    apply NoDup_app in Hnd as (Hnd & Hdisj & _).
    apply elem_of_app in Hin as [Hin|Hin].
    + rewrite lookup_insert_ne; [by apply IH|].
      intros Heq. apply (Hdisj (filename f)).
      * apply list_elem_of_fmap. by exists f.
      * rewrite <- Heq. apply list_elem_of_singleton. done.
    + apply list_elem_of_singleton in Hin as ->. by rewrite lookup_insert_eq.
Qed.

(** ** The requests of a session *)

(** Whatever follows, the request at hand is the next one sent. *)
Lemma main_loop_sends_request (script : list turn) (st : state) :
  ∃ sent e, main_loop build clean script st = (next_request st :: sent, e).
Proof.
  destruct script as [|[x|err|err] script]; cbn; try by eexists _, _.
  destruct (handle build clean st x) as [[st'| |]|err]; cbn.
  - destruct (main_loop build clean script st'). by eexists _, _.
  - by eexists _, _.
  - by eexists _, _.
  - by eexists _, _.
Qed.

(** A session that closes its socket has sent [BYE] last. *)
Lemma main_loop_closed_last (script : list turn) :
  ∀ st sent raised,
    main_loop build clean script st = (sent, Closed raised) →
    last sent = Some BYE.
Proof.
  induction script as [|[x|err|err] script IH]; intros st sent raised; cbn;
    [done| |by intros [= <- <-]|done].
  destruct (handle build clean st x) as [[st'| |]|err]; cbn.
  - destruct (main_loop build clean script st') as [sent' e] eqn:E.
    intros [= <- ->]. apply IH in E.
    destruct sent' as [|r sent']; [done|]. by rewrite last_cons, E.
  - by intros [= <- <-].
  - done.
  - by intros [= <- <-].
Qed.

(** A session starts with [HELLO] also when it never ends. *)
Lemma session_begins_hello (script : list turn) :
  head (main build clean script).1 = Some HELLO.
Proof.
  unfold main.
  destruct (main_loop_sends_request script initial) as (sent' & e & ->).
  done.
Qed.

(** A reply that the loop does not know ends the session; so does [BYE]. *)
Lemma handle_bye (st : state) (x : exchange) (args : list jval) :
  reply x = JStr "BYE" :: args → handle build clean st x = Ok Break.
Proof. intros H. unfold handle. rewrite H. done. Qed.

(** ** The [BUILD] branch *)


(** ** The [SEND] branch *)

Lemma filter_by_filename (fs : list PiWheelsPackage) (fn : string) :
  List.filter (fun f => bool_decide (JStr (filename f) = JStr fn)) fs
  = filter (λ f, filename f = fn) fs.
Proof.
  induction fs as [|f fs IH]; [done|]. rewrite filter_cons, <- IH. cbn.
  case_bool_decide as H1; case_decide as H2; congruence.
Qed.

(** ** The [FETCH] branch of [transfer] *)

Lemma transfer_loop_fetch (id : Z) (found : bool) (args : multipart)
    (events : list transfer_event) (f : file) :
  transfer_loop id ({| polled := found; frames := b "FETCH" :: args |} :: events) f
  = let prod := if found then [] else [[b "HELLO"; str_of_int id]] in
    match fetch args f with
    | Ok (msg, f') =>
        let '(sent, e) := transfer_loop id events f' in (prod ++ msg :: sent, e)
    | Raise e => (prod, Raised e)
    end.
Proof. reflexivity. Qed.

(** A [FETCH] whose frames read as natural numbers is answered with the
    bytes that are there. *)
Lemma fetch_naturals (f : file) (offset size : bytes) (o s : nat) :
  int_of_bytes offset = Ok (Z.of_nat o) →
  int_of_bytes size = Ok (Z.of_nat s) →
  fetch [offset; size] f
  = Ok ([b "CHUNK"; offset; take s (drop o (data f))],
        {| data := data f; pos := o + length (take s (drop o (data f))) |}).
Proof.
  intros Ho Hs. unfold fetch. rewrite Ho. cbn. unfold seek.
  destruct (Z.ltb_spec (Z.of_nat o) (- 2 ^ 63)) as [Hneg|_]; [lia|].
  destruct (Z.ltb_spec (Z.of_nat o) 0) as [Hneg|_]; [lia|]. cbn.
  rewrite Hs. cbn. unfold read. cbn [data pos].
  destruct (Z.ltb_spec (Z.of_nat s) (- 2 ^ 63)) as [Hneg|_]; [lia|].
  destruct (Z.ltb_spec (Z.of_nat s) (-1)) as [Hneg|_]; [lia|].
  destruct (Z.eqb_spec (Z.of_nat s) (-1)) as [Hneg|_]; [lia|].
  by rewrite !Nat2Z.id.
Qed.

(** C7: for a [FETCH] whose frames read as offset [o] and size [s] with
    [o + s] within the file, the message sent is [CHUNK] with the offset
    frame as received and, as payload, the [s] bytes of the file from
    offset [o] on. *)
Theorem fetch_sends_chunk (f : file) (offset size : bytes) (o s : nat)
    (id : Z) (found : bool) (events : list transfer_event) :
  int_of_bytes offset = Ok (Z.of_nat o) →
  int_of_bytes size = Ok (Z.of_nat s) →
  o + s ≤ length (data f) →
  let payload := take s (drop o (data f)) in
  let f' := {| data := data f; pos := o + s |} in
  fetch [offset; size] f = Ok ([b "CHUNK"; offset; payload], f') ∧
  length payload = s ∧
  (∀ i, i < s → payload !! i = data f !! (o + i)) ∧
  transfer_loop id
    ({| polled := found; frames := [b "FETCH"; offset; size] |} :: events) f
  = ((if found then [] else [[b "HELLO"; str_of_int id]])
       ++ [b "CHUNK"; offset; payload] :: (transfer_loop id events f').1,
     (transfer_loop id events f').2).
Proof.
  intros Ho Hs Hlen payload f'.
  assert (Hpl : length payload = s).
  { unfold payload. rewrite length_take, length_drop. lia. }
  assert (Hfetch : fetch [offset; size] f = Ok ([b "CHUNK"; offset; payload], f')).
  { rewrite (fetch_naturals f offset size o s Ho Hs). fold payload.
    by rewrite Hpl. }
  split_and!; try done.
  - intros i Hi. unfold payload. rewrite lookup_take_lt by done.
    by rewrite lookup_drop.
  - rewrite transfer_loop_fetch, Hfetch. cbn.
    by destruct (transfer_loop id events f').
Qed.

(** ** Offsets and sizes in decimal *)

(** The value of a run of digits read after [acc]. *)
Lemma parse_digits_uint (d : Decimal.uint) (acc : positive) :
  parse_digits true (Z.pos acc) (list_byte_of_string (NilEmpty.string_of_uint d))
  = Some (Z.pos (Pos.of_uint_acc d acc)).
Proof.
  revert acc. induction d; intros acc; cbn [NilEmpty.string_of_uint];
    [done|..]; cbn; rewrite <- IHd; f_equal; lia.
Qed.

Lemma parse_digits_to_uint (p : positive) :
  parse_digits false 0 (list_byte_of_string (NilEmpty.string_of_uint (Pos.to_uint p)))
  = Some (Z.pos p).
Proof.
  pose proof (DecimalPos.Unsigned.of_to p) as Hp.
  pose proof (to_uint_no_leading_zero p) as H0.
  destruct (Pos.to_uint p) as [|d|d|d|d|d|d|d|d|d|d];
    [done|by destruct (H0 d)|..];
    cbn in Hp; injection Hp as <-; cbn [NilEmpty.string_of_uint];
    cbn; apply parse_digits_uint.
Qed.

Lemma strip_no_space (p : byte → bool) (cs : bytes) :
  Forall (λ c, p c = false) cs → strip p cs = cs.
Proof.
  intros H. unfold strip.
  assert (Hd : ∀ l, Forall (λ c, p c = false) l → drop_while p l = l).
  { intros [|c l] Hl; [done|]. cbn. by rewrite (Forall_inv Hl). }
  rewrite (Hd cs H), Hd, rev_involutive; [done|].
  apply List.Forall_forall. intros c Hc%in_rev.
  by apply (proj1 (List.Forall_forall _ _) H).
Qed.

Lemma digits_no_space (d : Decimal.uint) :
  Forall (λ c, is_space c = false)
         (list_byte_of_string (NilEmpty.string_of_uint d)).
Proof. induction d; cbn; constructor; done. Qed.

(** A natural number written by [str] reads back by [int]: the frames
    [<offset-ascii>] and [<size-ascii>] of a [FETCH] denote the numbers
    they were written from. *)
Lemma int_of_bytes_str_of_int (n : nat) :
  int_of_bytes (str_of_int (Z.of_nat n)) = Ok (Z.of_nat n).
Proof.
  unfold int_of_bytes, str_of_int.
  destruct (Z.of_nat n) as [|p|p] eqn:E; [done| |lia].
  cbn [Z.to_int NilZero.string_of_int NilZero.string_of_uint].
  pose proof (Unsigned.to_uint_nonnil p) as Hnil.
  pose proof (to_uint_no_leading_zero p) as H0.
  pose proof (parse_digits_to_uint p) as Hp.
  pose proof (digits_no_space (Pos.to_uint p)) as Hs.
  destruct (Pos.to_uint p) as [|d|d|d|d|d|d|d|d|d|d];
    [done|by destruct (H0 d)|..];
    cbn [NilZero.string_of_uint]; rewrite strip_no_space by done;
    cbn [NilEmpty.string_of_uint] in *;
    unfold parse_signed; cbn -[parse_digits] in Hp |- *; by rewrite Hp.
Qed.

End SlaveProperties.

(** ** The theorems at work on a session *)

Section SlaveSamples.
Import Slave.

Example happy_path_requests :
  (main Sample.build Sample.clean (map Reply Sample.happy_path)).1
  = [ HELLO; IDLE;
      BUILT "foo" "0.1" true 300 "log"
            {[ "foo-0.1-cp34-cp34m-linux_armv7l.whl"
               := (8%Z, "123456abcdef", "0.1", "cp34", "cp34m", "linux_armv7l") ]};
      SENT; IDLE; IDLE; BYE ].
Proof. vm_compute. reflexivity. Qed.

Example upload_messages :
  transfer 3 Sample.foo_wheel Sample.upload
  = ( [ [b "HELLO"; b "3"];
        [b "CHUNK"; b "0"; b "abcde"];
        [b "CHUNK"; b "5"; b "fgh"] ],
      Returned ).
Proof. reflexivity. Qed.

(** A [SEND] before any build trips an assertion; [BYE] goes out all the
    same. *)
Example send_before_build :
  main Sample.build Sample.clean
       [ Reply (Sample.says [JStr "HELLO"; JInt 3]);
         Reply (Sample.says [JStr "SEND"; JStr "x"]) ]
  = ( [HELLO; IDLE; BYE],
      Closed (Some (AssertionError "Send before build / after failed build")) ).
Proof. reflexivity. Qed.


Lemma fetch_sends_chunk_witness :
  fetch [b "2"; b "3"] {| data := b "abcdefgh"; pos := 0 |}
  = Ok ([b "CHUNK"; b "2"; b "cde"], {| data := b "abcdefgh"; pos := 5 |}).
Proof.
  refine (proj1 (fetch_sends_chunk {| data := b "abcdefgh"; pos := 0 |}
                   (b "2") (b "3") 2 3 0 true [] eq_refl eq_refl _)).
  vm_compute. lia.
Defined.

End SlaveSamples.

(* ===================================================================== *)
(** * Properties of the index scribe *)
(* ===================================================================== *)

Section JsonProperties.
Import Scribe.

(** ** White space *)

Lemma skip_ws_app (ws s : text) :
  forallb is_ws ws = true → skip_ws (ws ++ s) = skip_ws s.
Proof.
  induction ws as [|c ws IH]; cbn; [done|].
  intros [Hc Hws]%andb_true_iff. rewrite Hc. auto.
Qed.

Lemma skip_ws_cons (c : ascii) (s : text) :
  is_ws c = false → skip_ws (c :: s) = c :: s.
Proof. intros H. cbn. by rewrite H. Qed.

Lemma parse_value_skip (fuel : nat) (ws s : text) :
  forallb is_ws ws = true → parse_value fuel (ws ++ s) = parse_value fuel s.
Proof.
  intros H. destruct fuel; [done|]. cbn. by rewrite skip_ws_app.
Qed.

(** ** Numbers *)

Lemma read_digits_chars (d : Decimal.uint) (r : text) :
  ends_number r = true → read_digits (chars_of_uint d ++ r) = (d, r).
Proof.
  intros Hr. induction d; cbn; try (by rewrite IHd).
  destruct r as [|c r]; [done|]. cbn in *.
  destruct (digit_ctor c); [|done].
  rewrite bool_decide_true in Hr by eauto. done.
Qed.

Lemma read_int_part_to_uint (p : positive) (r : text) :
  ends_number r = true →
  read_int_part (chars_of_uint (Pos.to_uint p) ++ r) = Some (Pos.to_uint p, r).
Proof.
  intros Hr.
  pose proof (to_uint_no_leading_zero p) as H0.
  pose proof (Unsigned.to_uint_nonnil p) as Hnil.
  destruct (Pos.to_uint p) as [|d|d|d|d|d|d|d|d|d|d];
    [done|by destruct (H0 d)|..];
    unfold read_int_part; cbn; by rewrite read_digits_chars.
Qed.

Lemma head_to_uint_not_minus (p : positive) (r : text) :
  ∃ c s, chars_of_uint (Pos.to_uint p) ++ r = c :: s ∧
         Ascii.eqb c "-" = false ∧ is_Some (digit_ctor c).
Proof.
  pose proof (Unsigned.to_uint_nonnil p) as Hnil.
  destruct (Pos.to_uint p); [done|..]; cbn; eexists _, _; (split; [done|]);
    split; try done; by eexists.
Qed.

Lemma parse_number_encode (z : Z) (r : text) :
  ends_number r = true → parse_number (encode_int z ++ r) = Some (z, r).
Proof.
  intros Hr.
  assert (Hfloat : starts_float_part r = false).
  { destruct r as [|c r]; [done|]. cbn in Hr.
    apply andb_true_iff in Hr as [_ Hr]. by apply negb_true_iff in Hr. }
  unfold parse_number, encode_int. destruct z as [|p|p]; cbn -[read_int_part].
  - cbn. by rewrite Hfloat.
  - destruct (head_to_uint_not_minus p r) as (c & s & E & Hc & _).
    rewrite E, Hc. cbn -[read_int_part Z.of_int]. rewrite <- E.
    rewrite read_int_part_to_uint by done. cbn -[Z.of_int]. rewrite Hfloat.
    do 2 f_equal. exact (DecimalZ.of_to (Z.pos p)).
  - rewrite read_int_part_to_uint by done. cbn -[Z.of_int]. rewrite Hfloat.
    do 2 f_equal. exact (DecimalZ.of_to (Z.neg p)).
Qed.

(** ** Strings *)

(** Reading back what [escape_char] wrote gives the character. *)
Lemma parse_string_body_escape (c : ascii) (s : text) :
  parse_string_body (escape_char c ++ s)
  = '(cs, r) ← parse_string_body s; Some (c :: cs, r).
Proof.
  destruct c as [[] [] [] [] [] [] [] []]; reflexivity.
Qed.

Lemma parse_string_body_encode (cs : text) (r : text) :
  parse_string_body (concat (map escape_char cs) ++ dquote :: r) = Some (cs, r).
Proof.
  induction cs as [|c cs IH]; [done|].
  cbn [map concat]. rewrite <- app_assoc, parse_string_body_escape, IH. done.
Qed.

(** ** Scalars *)

Lemma parse_value_number (fuel : nat) (c : ascii) (s : text) :
  starts_number c = true →
  parse_value (S fuel) (c :: s)
  = '(z, r) ← parse_number (c :: s); Some (JsNum z, r).
Proof.
  destruct c as [[] [] [] [] [] [] [] []]; try discriminate; reflexivity.
Qed.

Lemma encode_int_head (z : Z) :
  ∃ c s, encode_int z = c :: s ∧ starts_number c = true.
Proof.
  unfold encode_int. destruct z as [|p|p]; cbn.
  - by eexists _, _.
  - destruct (head_to_uint_not_minus p []) as (c & s & E & _ & Hd).
    rewrite app_nil_r in E. exists c, s. split; [done|].
    unfold starts_number. rewrite bool_decide_true by done. apply orb_true_r.
  - by eexists _, _.
Qed.

Lemma parse_value_string (fuel : nat) (s : text) :
  parse_value (S fuel) (dquote :: s)
  = '(cs, r) ← parse_string_body s; Some (JsString (string_of_list_ascii cs), r).
Proof. reflexivity. Qed.

(** A serializable scalar reads back as itself. *)
Lemma parse_value_scalar (fuel : nat) (v : pyval) (t : text) (j : json) (r : text) :
  encode_scalar v = Ok t → json_of_scalar v = Some j → ends_number r = true →
  parse_value (S fuel) (t ++ r) = Some (j, r).
Proof.
  intros Ht Hj Hr. destruct v as [|[]|z|s|]; cbn in Ht, Hj;
    try discriminate; injection Ht as <-; injection Hj as <-.
  - reflexivity.
  - reflexivity.
  - reflexivity.
  - destruct (encode_int_head z) as (c & s & E & Hc).
    rewrite E. cbn [app]. rewrite parse_value_number by done.
    change (c :: s ++ r) with ((c :: s) ++ r). rewrite <- E.
    by rewrite parse_number_encode.
  - unfold encode_string. cbn [app]. rewrite parse_value_string.
    rewrite <- app_assoc. cbn [app].
    rewrite parse_string_body_encode. cbn.
    by rewrite string_of_list_ascii_of_string.
Qed.

(** The text of a scalar does not start with white space or with a
    closing bracket. *)
Lemma encode_scalar_head (v : pyval) (t : text) :
  encode_scalar v = Ok t →
  ∃ c s, t = c :: s ∧ is_ws c = false ∧ Ascii.eqb c "]" = false.
Proof.
  intros Ht. destruct v as [|[]|z|s|]; cbn in Ht; try discriminate;
    injection Ht as <-; try (by eexists _, _).
  destruct (encode_int_head z) as (c & s & E & Hc).
  exists c, s. split; [done|]. clear E.
  destruct c as [[] [] [] [] [] [] [] []]; try discriminate; done.
Qed.

(** ** The search index *)

Variable sep_space : text.
Hypothesis sep_is_space : forallb is_ws sep_space = true.

Lemma serializable_scalar (v : pyval) :
  serializable v = true →
  ∃ j, json_of_scalar v = Some j ∧ encode_scalar v = Ok (scalar_text v).
Proof.
  unfold scalar_text. destruct v as [|[]|z|s|]; try discriminate;
    intros _; by eexists.
Qed.

Lemma dump_scalar_ok (before : text) (v : pyval) :
  serializable v = true → dump_scalar before v = (before ++ scalar_text v, None).
Proof.
  intros (j & _ & H)%serializable_scalar. unfold dump_scalar. by rewrite H.
Qed.

Lemma dump_pair_ok (before : text) (p : pyval * pyval) :
  serializable_pair p = true →
  dump_pair sep_space before p = (before ++ pair_text sep_space p, None).
Proof.
  intros [H1 H2]%andb_true_iff. unfold dump_pair, pair_text.
  rewrite !dump_scalar_ok by done. unfold then_, emit. cbn.
  by rewrite <- !app_assoc.
Qed.

Lemma dump_pairs_ok (ps : list (pyval * pyval)) :
  forallb serializable_pair ps = true →
  ∀ before p, serializable_pair p = true →
    dump_pairs sep_space before (p :: ps)
    = (before ++ pair_text sep_space p ++ rest_text sep_space ps, None).
Proof.
  induction ps as [|q ps IH]; intros Hps before p Hp.
  - cbn [dump_pairs]. rewrite dump_pair_ok by done. unfold then_, emit. cbn.
    by rewrite <- app_assoc.
  - apply andb_true_iff in Hps as [Hq Hps].
    change (dump_pairs sep_space before (p :: q :: ps))
      with (then_ (dump_pair sep_space before p)
                  (dump_pairs sep_space (item_separator sep_space) (q :: ps))).
    rewrite dump_pair_ok by done.
    rewrite (IH Hps (item_separator sep_space) q Hq). unfold then_. cbn [fst snd].
    cbn [rest_text]. by rewrite <- !app_assoc.
Qed.

Lemma json_dump_ok (ps : list (pyval * pyval)) :
  forallb serializable_pair ps = true →
  json_dump sep_space ps = (search_index_text sep_space ps, None).
Proof.
  destruct ps as [|p ps]; [done|]. intros [Hp Hps]%andb_true_iff.
  unfold json_dump. by rewrite dump_pairs_ok.
Qed.

(** A value that cannot be serialized stops the writing with
    [TypeError]. *)
Lemma dump_scalar_fails (before : text) (v : pyval) :
  serializable v = false → dump_scalar before v = (before, Some TypeError).
Proof. by destruct v. Qed.

Lemma dump_pair_fails (before : text) (p : pyval * pyval) :
  serializable_pair p = false →
  (dump_pair sep_space before p).2 = Some TypeError.
Proof.
  intros H. unfold dump_pair, serializable_pair in *.
  destruct (serializable p.1) eqn:H1.
  - cbn in H. rewrite (dump_scalar_ok _ _ H1), (dump_scalar_fails _ _ H). done.
  - by rewrite (dump_scalar_fails _ _ H1).
Qed.

Lemma dump_pairs_fails (ps : list (pyval * pyval)) :
  forallb serializable_pair ps = false →
  ∀ before, (dump_pairs sep_space before ps).2 = Some TypeError.
Proof.
  induction ps as [|p ps IH]; [done|]. intros H before. cbn [dump_pairs].
  destruct (serializable_pair p) eqn:Hp.
  - cbn [forallb] in H. rewrite Hp in H. rewrite dump_pair_ok by done.
    unfold then_. cbn [fst snd]. apply IH. exact H.
  - unfold then_. rewrite dump_pair_fails by done. by apply dump_pair_fails.
Qed.

Lemma json_dump_fails (ps : list (pyval * pyval)) :
  forallb serializable_pair ps = false →
  (json_dump sep_space ps).2 = Some TypeError.
Proof.
  destruct ps as [|p ps]; [done|]. intros H. by apply dump_pairs_fails.
Qed.

(** ** Reading the search index back *)

Lemma ends_number_separator (s : text) : ends_number (item_separator sep_space ++ s) = true.
Proof. reflexivity. Qed.

Lemma ends_number_bracket (s : text) : ends_number ("]"%char :: s) = true.
Proof. reflexivity. Qed.

Lemma parse_value_array (fuel : nat) (c : ascii) (s : text) :
  is_ws c = false → Ascii.eqb c "]" = false →
  parse_value (S fuel) ("["%char :: c :: s)
  = '(items, r) ← parse_items fuel (c :: s); Some (JsArray items, r).
Proof.
  intros H1 H2.
  change (parse_value (S fuel) ("["%char :: c :: s))
    with (match skip_ws (c :: s) with
          | c2 :: s2 =>
              if Ascii.eqb c2 "]" then Some (JsArray [], s2)
              else '(items, r) ← parse_items fuel (c :: s); Some (JsArray items, r)
          | [] => None
          end).
  by rewrite skip_ws_cons, H2.
Qed.

Lemma parse_items_eq (fuel : nat) (s : text) :
  parse_items (S fuel) s
  = '(v, s1) ← parse_value fuel s;
    match skip_ws s1 with
    | c :: s2 =>
        if Ascii.eqb c "," then '(vs, r) ← parse_items fuel s2; Some (v :: vs, r)
        else if Ascii.eqb c "]" then Some ([v], s2)
        else None
    | [] => None
    end.
Proof. reflexivity. Qed.

Lemma parse_items_more (fuel : nat) (s : text) (v : json) (s2 : text) :
  parse_value fuel s = Some (v, ","%char :: s2) →
  parse_items (S fuel) s = '(vs, r) ← parse_items fuel s2; Some (v :: vs, r).
Proof. intros H. rewrite parse_items_eq, H. reflexivity. Qed.

Lemma parse_items_last (fuel : nat) (s : text) (v : json) (s2 : text) :
  parse_value fuel s = Some (v, "]"%char :: s2) →
  parse_items (S fuel) s = Some ([v], s2).
Proof. intros H. rewrite parse_items_eq, H. reflexivity. Qed.

Lemma pair_text_app (p : pyval * pyval) (r : text) :
  pair_text sep_space p ++ r
  = "["%char :: scalar_text p.1
      ++ ","%char :: sep_space ++ scalar_text p.2 ++ "]"%char :: r.
Proof.
  unfold pair_text, item_separator.
  repeat (rewrite <- app_assoc || rewrite <- app_comm_cons). reflexivity.
Qed.

(** A pair reads back as an array of its two values. *)
Lemma parse_value_pair (fuel : nat) (ws : text) (p : pyval * pyval) (r : text) :
  forallb is_ws ws = true → serializable_pair p = true →
  ∃ j, json_of_pair p = Some j ∧
       parse_value (4 + fuel) (ws ++ pair_text sep_space p ++ r) = Some (j, r).
Proof.
  intros Hws [H1 H2]%andb_true_iff. destruct p as [k v]. cbn [fst snd] in *.
  destruct (serializable_scalar k H1) as (jk & Hjk & Hk).
  destruct (serializable_scalar v H2) as (jv & Hjv & Hv).
  exists (JsArray [jk; jv]). split.
  { unfold json_of_pair. cbn. rewrite Hjk, Hjv. done. }
  rewrite parse_value_skip, pair_text_app by done. cbn [fst snd].
  destruct (encode_scalar_head k _ Hk) as (c & s & Ec & Hc1 & Hc2).
  change (4 + fuel) with (S (S (S (S fuel)))).
  rewrite Ec. cbn [app]. rewrite parse_value_array by done.
  change (c :: s ++ ?x) with ((c :: s) ++ x). rewrite <- Ec.
  rewrite (parse_items_more _ _ jk (sep_space ++ scalar_text v ++ "]"%char :: r));
    [|by apply (parse_value_scalar _ k)].
  rewrite (parse_items_last _ _ jv r); [done|].
  rewrite parse_value_skip by done. by apply (parse_value_scalar _ v).
Qed.

(** The pairs after the first, up to the closing bracket. *)
Lemma parse_items_pairs (ps : list (pyval * pyval)) :
  forallb serializable_pair ps = true →
  ∀ fuel ws p r,
    length ps + 5 ≤ fuel → forallb is_ws ws = true → serializable_pair p = true →
    ∃ j js, json_of_pair p = Some j ∧ mapM json_of_pair ps = Some js ∧
      parse_items fuel (ws ++ pair_text sep_space p ++ rest_text sep_space ps ++ r)
      = Some (j :: js, r).
Proof.
  induction ps as [|q ps IH]; intros Hps fuel ws p r Hfuel Hws Hp.
  - destruct fuel as [|fuel]; [cbn in Hfuel; lia|].
    destruct (parse_value_pair (fuel - 4) ws p (rest_text sep_space [] ++ r) Hws Hp)
      as (j & Hj & Hparse).
    exists j, []. split_and!; [done..|].
    apply parse_items_last.
    replace fuel with (4 + (fuel - 4)) by (cbn in Hfuel; lia).
    exact Hparse.
  - apply andb_true_iff in Hps as [Hq Hps].
    destruct fuel as [|fuel]; [cbn in Hfuel; lia|]. cbn [length] in Hfuel.
    destruct (parse_value_pair (fuel - 4) ws p
                (rest_text sep_space (q :: ps) ++ r) Hws Hp) as (j & Hj & Hparse).
    destruct (IH Hps fuel sep_space q r ltac:(lia) sep_is_space Hq)
      as (j' & js & Hj' & Hjs & Hrest).
    exists j, (j' :: js). split_and!; [done| |].
    { cbn. rewrite Hj'. cbn. rewrite Hjs. done. }
    rewrite (parse_items_more _ _ j
               (sep_space ++ pair_text sep_space q ++ rest_text sep_space ps ++ r)).
    + by rewrite Hrest.
    + replace fuel with (4 + (fuel - 4)) by lia.
      rewrite Hparse. do 2 f_equal. cbn [rest_text]. unfold item_separator.
      repeat (rewrite <- app_assoc || rewrite <- app_comm_cons). reflexivity.
Qed.

Lemma rest_text_length (ps : list (pyval * pyval)) :
  length ps + 1 ≤ length (rest_text sep_space ps).
Proof.
  induction ps as [|p ps IH]; [cbn; lia|].
  cbn [rest_text length]. unfold item_separator.
  rewrite !length_app. cbn [length]. lia.
Qed.

Lemma pair_text_length (p : pyval * pyval) : 3 ≤ length (pair_text sep_space p).
Proof.
  unfold pair_text, item_separator. cbn [length].
  rewrite !length_app. cbn [length]. lia.
Qed.

(** The whole file reads back as the list of the pairs, in their order. *)
Lemma json_load_search_index (ps : list (pyval * pyval)) :
  forallb serializable_pair ps = true →
  ∃ js, mapM json_of_pair ps = Some js ∧
    json_load (string_of_list_ascii (search_index_text sep_space ps))
    = Some (JsArray js).
Proof.
  intros Hps. unfold json_load. rewrite list_ascii_of_string_of_list_ascii.
  destruct ps as [|p ps]; [by exists []|].
  apply andb_true_iff in Hps as [Hp Hps].
  destruct (parse_items_pairs ps Hps
              (length (search_index_text sep_space (p :: ps))) [] p [])
    as (j & js & Hj & Hjs & Hparse); [|done|done|].
  { cbn [search_index_text length]. rewrite length_app.
    pose proof (rest_text_length ps). pose proof (pair_text_length p). lia. }
  exists (j :: js). split.
  { cbn. rewrite Hj. cbn. rewrite Hjs. done. }
  cbn [app] in Hparse. rewrite app_nil_r in Hparse.
  set (n := length (search_index_text sep_space (p :: ps))) in *.
  unfold search_index_text, pair_text. cbn [app].
  rewrite parse_value_array by done.
  change ("["%char :: ?x ++ rest_text sep_space ps)
    with (pair_text sep_space p ++ rest_text sep_space ps).
  rewrite Hparse. reflexivity.
Qed.

End JsonProperties.

Section ScribeProperties.
Import Scribe.

Variable tmp_path : string → string.
Variable homepage_template : list segment.
Variable sep_space : text.

Abbreviation handle_index := (Scribe.handle_index tmp_path homepage_template sep_space).

(** ** Index writes *)

Lemma atomic_write_done (path : string) (t : text) (fs : tree) :
  atomic_write tmp_path path (t, None) fs
  = (<[path := string_of_list_ascii t]> (delete (tmp_path path) fs), Ok tt).
Proof.
  unfold atomic_write, rename. cbn [fst snd].
  by rewrite lookup_insert_eq, delete_insert_eq.
Qed.

Lemma atomic_write_aborted (path : string) (t : text) (e : exn) (fs : tree) :
  atomic_write tmp_path path (t, Some e) fs = (delete (tmp_path path) fs, Raise e).
Proof. unfold atomic_write. cbn [fst snd]. by rewrite delete_insert_eq. Qed.

(** While the write is under way the text written so far, complete or
    not, is in the temporary file and nowhere else. *)
Lemma atomic_write_in_progress (path : string) (w : stream) (fs : tree) (q : string) :
  q ≠ tmp_path path →
  (<[tmp_path path := string_of_list_ascii w.1]> fs) !! q = fs !! q.
Proof. intros H. by rewrite lookup_insert_ne. Qed.

(** A message whose handling raises leaves every file but the temporary
    one as it was, and no temporary file behind. *)
Lemma failed_write_changes_nothing (msg : index_msg) (fs : tree) (e : exn) :
  (handle_index msg fs).2 = Raise e →
  (handle_index msg fs).1 !! tmp_path (target msg) = None ∧
  ∀ q, q ≠ tmp_path (target msg) → (handle_index msg fs).1 !! q = fs !! q.
Proof.
  assert (H : ∀ path w, (atomic_write tmp_path path w fs).2 = Raise e →
            (atomic_write tmp_path path w fs).1 !! tmp_path path = None ∧
            ∀ q, q ≠ tmp_path path → (atomic_write tmp_path path w fs).1 !! q = fs !! q).
  { intros path [t [e'|]]; [|by rewrite atomic_write_done].
    rewrite atomic_write_aborted. intros _. cbn [fst]. split.
    - apply lookup_delete_eq.
    - intros q Hq. by rewrite lookup_delete_ne. }
  destruct msg; apply H.
Qed.

Lemma render_missing_field (stats : gmap string pyval) :
  ∀ template f,
    Field f ∈ template → stats !! f = None →
    ∃ k, render template stats = Raise (KeyError k) ∧
         Field k ∈ template ∧ stats !! k = None.
Proof.
  induction template as [|seg template IH]; intros f Hin Hf.
  - by apply not_elem_of_nil in Hin.
  - apply elem_of_cons in Hin as [<-|Hin].
    + exists f. cbn. rewrite Hf. split_and!; [done|left|done].
    + destruct (IH f Hin Hf) as (k & Hk & Hk1 & Hk2).
      destruct seg as [t|name]; cbn.
      * exists k. rewrite Hk. split_and!; [done|by right|done].
      * destruct (stats !! name) eqn:E.
        -- exists k. rewrite Hk. split_and!; [done|by right|done].
        -- exists name. split_and!; [done|left|done].
Qed.

(** C3: a [HOME] message whose stats lack one of [packages_built],
    [files_count], [downloads_last_month] raises [KeyError], and a
    [SEARCH] message with a value that cannot be serialized raises
    [TypeError]; in both cases the final file ([index.html],
    [packages.json]) is as it was before the message, so absent if it was
    absent, and so is every other file of the tree: what was written
    before the failure was in the temporary file only, which is gone. *)
Theorem failed_index_write_publishes_nothing (fs : tree) :
  (∀ path, tmp_path path ≠ path) →
  (∀ f, f ∈ homepage_fields → Field f ∈ homepage_template) →
  (∀ stats : gmap string pyval,
     (∃ f, f ∈ homepage_fields ∧ stats !! f = None) →
     (∃ k, stats !! k = None ∧
           (handle_index (HOME stats) fs).2 = Raise (KeyError k)) ∧
     (handle_index (HOME stats) fs).1 !! "index.html" = fs !! "index.html" ∧
     (fs !! "index.html" = None →
      (handle_index (HOME stats) fs).1 !! "index.html" = None)) ∧
  (∀ search_index : list (pyval * pyval),
     (∃ p, p ∈ search_index ∧ (serializable p.1 = false ∨ serializable p.2 = false)) →
     (handle_index (SEARCH search_index) fs).2 = Raise TypeError ∧
     (handle_index (SEARCH search_index) fs).1 !! "packages.json"
       = fs !! "packages.json" ∧
     (fs !! "packages.json" = None →
      (handle_index (SEARCH search_index) fs).1 !! "packages.json" = None)) ∧
  (∀ msg e, (handle_index msg fs).2 = Raise e →
     (handle_index msg fs).1 !! tmp_path (target msg) = None ∧
     ∀ q, q ≠ tmp_path (target msg) → (handle_index msg fs).1 !! q = fs !! q).
Proof.
  intros Htmp Htpl. split_and!.
  - intros stats (f & Hf & Hmiss).
    destruct (render_missing_field stats homepage_template f (Htpl f Hf) Hmiss)
      as (k & Hk & _ & Hk').
    assert (Hr : (handle_index (HOME stats) fs).2 = Raise (KeyError k)).
    { cbn. unfold write_homepage. rewrite Hk. by rewrite atomic_write_aborted. }
    destruct (failed_write_changes_nothing (HOME stats) fs _ Hr) as [_ Hsame].
    assert (Heq : (handle_index (HOME stats) fs).1 !! "index.html" = fs !! "index.html").
    { apply Hsame. cbn. intros E. by apply (Htmp "index.html"). }
    split_and!; [by exists k|done|]. intros Habs. by rewrite Heq.
  - intros ps (p & Hp & Hbad).
    assert (Hall : forallb serializable_pair ps = false).
    { apply not_true_is_false. intros Hall.
      rewrite forallb_forall in Hall.
      specialize (Hall p ltac:(by apply list_elem_of_In)).
      apply andb_true_iff in Hall as [H1 H2]. destruct Hbad; congruence. }
    assert (Hr : (handle_index (SEARCH ps) fs).2 = Raise TypeError).
    { cbn. unfold write_search_index.
      pose proof (json_dump_fails sep_space ps Hall) as Hd.
      destruct (json_dump sep_space ps) as [t o]. cbn in Hd. subst o.
      by rewrite atomic_write_aborted. }
    destruct (failed_write_changes_nothing (SEARCH ps) fs _ Hr) as [_ Hsame].
    assert (Heq : (handle_index (SEARCH ps) fs).1 !! "packages.json"
                  = fs !! "packages.json").
    { apply Hsame. cbn. intros E. by apply (Htmp "packages.json"). }
    split_and!; [done..|]. intros Habs. by rewrite Heq.
  - intros msg e. apply failed_write_changes_nothing.
Qed.

(** C4: for a search index [s] whose names and counts are all
    serializable, [SEARCH s] writes [packages.json], and reading that file
    as JSON gives an array with one item per pair of [s], in the order of
    [s], each item being the two-element array of the pair's values. *)
Theorem search_index_round_trip (fs : tree) (s : list (pyval * pyval)) :
  forallb is_ws sep_space = true →
  (∀ p, p ∈ s → serializable p.1 = true ∧ serializable p.2 = true) →
  ∃ (file : string) (items : list json),
    (handle_index (SEARCH s) fs).2 = Ok tt ∧
    (handle_index (SEARCH s) fs).1 !! "packages.json" = Some file ∧
    json_load file = Some (JsArray items) ∧
    Forall2 (λ p item, ∃ k v, json_of_scalar p.1 = Some k ∧
                              json_of_scalar p.2 = Some v ∧
                              item = JsArray [k; v]) s items.
Proof.
  intros Hsep Hs.
  assert (Hall : forallb serializable_pair s = true).
  { apply forallb_forall. intros p Hp%list_elem_of_In.
    destruct (Hs p Hp) as [H1 H2]. unfold serializable_pair. by rewrite H1, H2. }
  destruct (json_load_search_index sep_space Hsep s Hall) as (js & Hjs & Hload).
  exists (string_of_list_ascii (search_index_text sep_space s)), js.
  cbn. unfold write_search_index. rewrite json_dump_ok by done.
  rewrite atomic_write_done. cbn [fst snd]. split_and!; [done| |done|].
  - by rewrite lookup_insert_eq.
  - apply mapM_Some in Hjs. eapply Forall2_impl; [exact Hjs|].
    intros [k v] j. unfold json_of_pair. cbn.
    destruct (json_of_scalar k) as [jk|]; [|done].
    destruct (json_of_scalar v) as [jv|]; [|done].
    cbn. intros [= <-]. by eexists _, _.
Qed.

End ScribeProperties.

(** ** The theorems at work on sample messages *)

Section ScribeSamples.
Import Scribe.

Abbreviation sample_handle_index :=
  (Scribe.handle_index Sample.tmp_path Sample.homepage_template [" "%char]).

Example homepage_written :
  (sample_handle_index (HOME Sample.stats) ∅).1
  = {[ "index.html" := "<p>123 packages, 234 files, 345 downloads</p>" ]}.
Proof. vm_compute. reflexivity. Qed.

(** What [json.dump] had written when it met the complex number. *)
Example bad_search_index_written :
  (json_dump [" "%char] Sample.bad_search_index).2 = Some TypeError ∧
  json_load (string_of_list_ascii (json_dump [" "%char] Sample.bad_search_index).1)
  = None.
Proof. vm_compute. done. Qed.

Lemma string_length_app (s1 s2 : string) :
  String.length (s1 +:+ s2) = String.length s1 + String.length s2.
Proof.
  induction s1 as [|c s1 IH]; [done|].
  change (String c s1 +:+ s2) with (String c (s1 +:+ s2)). cbn. by rewrite IH.
Qed.

Lemma sample_tmp_path_differs (path : string) : Sample.tmp_path path ≠ path.
Proof.
  unfold Sample.tmp_path. intros E. apply (f_equal String.length) in E.
  rewrite !string_length_app in E. cbn in E. lia.
Qed.

Lemma failed_index_write_publishes_nothing_witness :
  (sample_handle_index (HOME ∅) ∅).1 !! "index.html" = None ∧
  sample_handle_index (SEARCH Sample.bad_search_index) ∅ = (∅, Raise TypeError).
Proof.
  destruct (failed_index_write_publishes_nothing
              Sample.tmp_path Sample.homepage_template [" "%char] ∅)
    as (Hhome & Hsearch & _).
  - apply sample_tmp_path_differs.
  - intros f Hf. unfold homepage_fields in Hf.
    repeat (apply elem_of_cons in Hf as [->|Hf]; [by repeat constructor|]).
    by apply not_elem_of_nil in Hf.
  - split.
    + apply (Hhome ∅); [|done]. exists "files_count". split; [|done].
      by repeat constructor.
    + vm_compute. reflexivity.
Defined.

Lemma search_index_round_trip_witness :
  ∃ file,
    (sample_handle_index (SEARCH Sample.search_index) ∅).1 !! "packages.json"
    = Some file ∧
    json_load file
    = Some (JsArray [ JsArray [JsString "foo"; JsNum 10];
                      JsArray [JsString "bar"; JsNum 1] ]).
Proof.
  destruct (search_index_round_trip
              Sample.tmp_path Sample.homepage_template [" "%char] ∅
              Sample.search_index eq_refl)
    as (file & items & _ & Hfile & Hload & _).
  - intros p Hp. unfold Sample.search_index in Hp.
    repeat (apply elem_of_cons in Hp as [->|Hp]; [done|]).
    by apply not_elem_of_nil in Hp.
  - exists file. split; [exact Hfile|].
    vm_compute in Hfile. injection Hfile as <-. vm_compute. reflexivity.
Defined.

End ScribeSamples.

(* ===================================================================== *)
(** * Further properties of the database layer *)
(* ===================================================================== *)

Section Ordering.
Import Db.

Context {R : Type} (before : R → R → bool).
Hypothesis before_total : ∀ a c, before a c = true ∨ before c a = true.

Lemma insert_sorted_perm (r : R) (l : list R) : insert_sorted before r l ≡ₚ r :: l.
Proof.
  induction l as [|x l IH]; cbn; [done|].
  destruct (before r x); [done|]. rewrite IH. apply Permutation_swap.
Qed.

Lemma order_by_perm (rows : list R) : order_by before rows ≡ₚ rows.
Proof.
  induction rows as [|r rows IH]; cbn; [done|].
  rewrite insert_sorted_perm. by f_equiv.
Qed.

Lemma insert_sorted_HdRel (r a : R) (l : list R) :
  before a r = true → HdRel (λ x y, before x y = true) a l →
  HdRel (λ x y, before x y = true) a (insert_sorted before r l).
Proof.
  intros Har Hl. destruct l as [|x l]; cbn; [by constructor|].
  destruct (before r x); constructor; [done|]. by inversion Hl.
Qed.

Lemma insert_sorted_Sorted (r : R) (l : list R) :
  Sorted (λ x y, before x y = true) l →
  Sorted (λ x y, before x y = true) (insert_sorted before r l).
Proof.
  induction 1 as [|x l Hl IH Hx]; cbn; [by repeat constructor|].
  destruct (before r x) eqn:E.
  - constructor; [by constructor|]. by constructor.
  - constructor; [done|]. apply insert_sorted_HdRel; [|done].
    destruct (before_total r x); congruence.
Qed.

Lemma order_by_Sorted (rows : list R) :
  Sorted (λ x y, before x y = true) (order_by before rows).
Proof.
  induction rows as [|r rows IH]; cbn; [constructor|].
  by apply insert_sorted_Sorted.
Qed.

End Ordering.

Section MoreDbProperties.
Import Db.

(** The row that [ORDER BY key DESC LIMIT 1] selects has the largest key
    of the table. *)
Lemma order_by_desc_head {R} (key : R → Z) (rows : list R) (h : R) (l : list R) :
  order_by_desc key rows = h :: l →
  h ∈ rows ∧ ∀ r, r ∈ rows → (key r ≤ key h)%Z.
Proof.
  intros E.
  pose proof (order_by_perm (λ r x, (key x <=? key r)%Z) rows) as Hp.
  pose proof (order_by_Sorted (λ r x, (key x <=? key r)%Z)
                ltac:(intros a c; destruct (Z.leb_spec (key c) (key a));
                      destruct (Z.leb_spec (key a) (key c)); auto; lia) rows) as Hs.
  unfold order_by_desc in E. rewrite E in Hp, Hs.
  apply Sorted_StronglySorted in Hs.
  2:{ intros a c d H1%Z.leb_le H2%Z.leb_le. apply Z.leb_le. lia. }
  apply StronglySorted_inv in Hs as [_ Hall].
  split.
  - rewrite <- Hp. left.
  - intros r Hr. rewrite <- Hp in Hr. apply elem_of_cons in Hr as [->|Hr]; [lia|].
    rewrite List.Forall_forall in Hall. apply Z.leb_le, Hall.
    by apply list_elem_of_In.
Qed.

Lemma Sorted_map_key {R} (key : R → string) (rows : list R) :
  Sorted (λ x y, String.leb (key x) (key y) = true) rows →
  Sorted (λ a c, String.leb a c = true) (map key rows).
Proof.
  induction 1 as [|x l Hl IH Hx]; cbn; constructor; [done|].
  destruct Hx; cbn; by constructor.
Qed.

Lemma packages_by_build_status_reply (v : bool) (db : database) :
  ∃ reply,
    _get_packages_by_build_status (Some v) db = Ok reply ∧
    reply ≡ₚ map Builds.package
               (List.filter (fun r => bool_decide (Builds.status r = Some v)) (builds db)) ∧
    Sorted (λ a c, String.leb a c = true) reply.
Proof.
  destruct v; (eexists; split; [reflexivity|]; split;
    [ unfold fetchall, order_by_text; rewrite order_by_perm;
      apply Permutation_map', reflexive_eq; unfold sql_where;
      apply filter_ext; intros r; by destruct (Builds.status r) as [[]|]
    | apply Sorted_map_key, order_by_Sorted; intros a c; apply String.leb_total ]).
Qed.

(** X1: [get_built_packages] and [get_failed_packages] return, in
    ascending order, the package of each build row whose status is true,
    respectively false, once per row; a row with a NULL status is in
    neither. *)
Theorem built_and_failed_listings (db : database) :
  ∃ built failed,
    get_built_packages db = Ok built ∧
    get_failed_packages db = Ok failed ∧
    built ≡ₚ map Builds.package
               (List.filter (fun r => bool_decide (Builds.status r = Some true))
                            (builds db)) ∧
    failed ≡ₚ map Builds.package
                (List.filter (fun r => bool_decide (Builds.status r = Some false))
                             (builds db)) ∧
    Sorted (λ a c, String.leb a c = true) built ∧
    Sorted (λ a c, String.leb a c = true) failed.
Proof.
  destruct (packages_by_build_status_reply true db) as (built & Hb & Hbp & Hbs).
  destruct (packages_by_build_status_reply false db) as (failed & Hf & Hfp & Hfs).
  by exists built, failed.
Qed.

Lemma sql_count_case (c : Builds.row → option bool) (rows : list Builds.row) :
  sql_count (map (fun r => case_when (c r) 1%Z) rows)
  = Z.of_nat (length (List.filter (fun r => bool_decide (c r = Some true)) rows)).
Proof.
  unfold sql_count. f_equal.
  induction rows as [|r rows IH]; cbn; [done|].
  destruct (c r) as [[]|]; cbn; rewrite IH; done.
Qed.

(** X2: the success and fail counts of [get_package_summary] are the
    lengths of the listings of [get_built_packages] and
    [get_failed_packages], and its total is the row count of [builds];
    the two counts never exceed the total, NULL statuses or not. *)
Theorem summary_counts_the_listings (db : database) :
  ∃ built failed,
    get_built_packages db = Ok built ∧
    get_failed_packages db = Ok failed ∧
    get_package_summary db
    = Some (Z.of_nat (length built), Z.of_nat (length failed),
            Z.of_nat (length (builds db))) ∧
    length built + length failed ≤ length (builds db).
Proof.
  destruct (packages_by_build_status_reply true db) as (built & Hb & Hbp & _).
  destruct (packages_by_build_status_reply false db) as (failed & Hf & Hfp & _).
  exists built, failed. split_and!; [done..| |].
  - unfold get_package_summary, fetchone. cbn [head].
    rewrite !sql_count_case, Hbp, Hfp, !length_map. do 3 f_equal.
    f_equal. f_equal. apply filter_ext. intros r.
    by destruct (Builds.status r) as [[]|].
  - rewrite Hbp, Hfp, !length_map. clear.
    induction (builds db) as [|r rows IH]; [cbn; lia|].
    cbn [List.filter length].
    destruct (Builds.status r) as [[]|]; repeat case_bool_decide; try done;
      cbn [length]; lia.
Qed.

(** X3: [get_previously_failed_packages] yields the same packages, with
    the same multiplicities, as [get_failed_packages]; only the order may
    differ. *)
Theorem previously_failed_is_failed (db : database) :
  ∃ failed,
    get_failed_packages db = Ok failed ∧
    failed ≡ₚ get_previously_failed_packages db.
Proof.
  destruct (packages_by_build_status_reply false db) as (failed & Hf & Hfp & _).
  exists failed. split; [done|]. rewrite Hfp.
  unfold get_previously_failed_packages, fetchall, sql_where.
  apply Permutation_map', reflexive_eq, filter_ext. intros r.
  by destruct (Builds.status r) as [[]|].
Qed.

(** ** [set_package_as_attempted] *)

Lemma attempted_rows_perm (p : string) (rows : list Packages.row) :
  List.filter (λ r, negb (String.eqb (Packages.package r) p)) rows
  ++ map (λ r, {| Packages.package := Packages.package r;
                  Packages.attempted := true |})
         (List.filter (λ r, String.eqb (Packages.package r) p) rows)
  ≡ₚ map (λ r, if decide (Packages.package r = p)
               then {| Packages.package := p; Packages.attempted := true |}
               else r) rows.
Proof.
  induction rows as [|r rows IH]; [done|]. cbn [List.filter map].
  destruct (String.eqb_spec (Packages.package r) p) as [E|E]; case_decide; try done;
    cbn [negb map app].
  - rewrite <- Permutation_middle. rewrite E. by apply Permutation_cons.
  - by apply Permutation_cons.
Qed.

Lemma attempted_rows_packages (p : string) (rows : list Packages.row) :
  map Packages.package
      (map (λ r, if decide (Packages.package r = p)
                 then {| Packages.package := p; Packages.attempted := true |}
                 else r) rows)
  = map Packages.package rows.
Proof. rewrite map_map. apply map_ext. intros r. by case_decide. Qed.

(** X4: [set_package_as_attempted] marks every row of the package and no
    other: the rows of [packages] afterwards are, in some order, the rows
    before with [attempted] set to true where the package is the given
    one. It leaves [builds] and [metadata] alone; for a package that is not
    in the table it changes nothing and does not fail; doing it twice gives
    the rows that doing it once gives. *)
Theorem set_package_as_attempted_update (p : string) (db : database) :
  let db' := set_package_as_attempted p db in
  packages db'
  ≡ₚ map (λ r, if decide (Packages.package r = p)
               then {| Packages.package := p; Packages.attempted := true |}
               else r) (packages db) ∧
  builds db' = builds db ∧ metadata db' = metadata db ∧
  (p ∉ map Packages.package (packages db) → db' = db) ∧
  packages (set_package_as_attempted p db') ≡ₚ packages db'.
Proof.
  cbn. unfold set_package_as_attempted, set_packages. cbn. split_and!; try done.
  - apply attempted_rows_perm.
  - intros Hp. destruct db as [ps bs ms]. cbn in *. f_equal.
    induction ps as [|r ps IH]; [done|]. cbn in *.
    apply not_elem_of_cons in Hp as [Hr Hp].
    destruct (String.eqb_spec (Packages.package r) p); [congruence|].
    cbn. by rewrite IH.
  - rewrite !attempted_rows_perm. apply reflexive_eq.
    rewrite map_map. apply map_ext. intros r.
    case_decide; cbn; by case_decide.
Qed.

Lemma List_filter_perm {A} (c : A → bool) (l l' : list A) :
  l ≡ₚ l' → List.filter c l ≡ₚ List.filter c l'.
Proof.
  induction 1 as [|a l l' _ IH|a a' l|l1 l2 l3 _ IH1 _ IH2]; cbn.
  - done.
  - destruct (c a); [by apply Permutation_cons|done].
  - destruct (c a), (c a'); try done. apply perm_swap.
  - by etrans.
Qed.

(** X5: no query reads the [attempted] column: after
    [set_package_as_attempted] the replies of [get_all_packages] and
    [get_unattempted_packages] hold the packages they held before, each as
    often as before (the order of the rows is not kept), so a package
    marked as attempted stays in the unattempted listing until it has a
    build row. *)
Theorem attempted_flag_is_not_read (p : string) (db : database) :
  ∃ before after_,
    get_all_packages db = Ok before ∧
    get_all_packages (set_package_as_attempted p db) = Ok after_ ∧
    after_ ≡ₚ before ∧
    get_unattempted_packages (set_package_as_attempted p db)
    ≡ₚ get_unattempted_packages db.
Proof.
  exists (map Packages.package (packages db)),
         (map Packages.package (packages (set_package_as_attempted p db))).
  split_and!; try apply get_all_packages_eq.
  - unfold set_package_as_attempted. cbn.
    etrans; [apply Permutation_map', attempted_rows_perm|].
    by rewrite attempted_rows_packages.
  - unfold get_unattempted_packages, fetchall, sql_where,
      set_package_as_attempted. cbn.
    etrans; [apply Permutation_map', List_filter_perm, attempted_rows_perm|].
    apply reflexive_eq.
    induction (packages db) as [|r ps IH]; [done|]. cbn.
    case_decide; cbn.
    + subst p. destruct (existsb _ _); cbn; by rewrite IH.
    + destruct (existsb _ _); cbn; by rewrite IH.
Qed.

(** ** [add_new_package] and the listings *)

(** X6: when [add_new_package] returns, [get_all_packages] lists the
    packages it listed before and the new one once more (in an order that
    the query leaves open); when it raises, which happens only under the
    primary key for a package already listed, the database is as it
    was. *)
Theorem add_new_package_then_listing (pk : bool) (p : string) (attempted : bool)
    (db : database) :
  ∃ before,
    get_all_packages db = Ok before ∧
    match (add_new_package pk p attempted db).2 with
    | Ok _ =>
        (∃ after_,
           get_all_packages (add_new_package pk p attempted db).1 = Ok after_ ∧
           after_ ≡ₚ p :: before) ∧
        (pk = true → p ∉ before)
    | Raise e =>
        e = IntegrityError ∧ pk = true ∧ p ∈ before ∧
        (add_new_package pk p attempted db).1 = db
    end.
Proof.
  exists (map Packages.package (packages db)).
  pose proof get_all_packages_eq as Hall.
  split; [apply Hall|]. unfold add_new_package.
  destruct pk; cbn [andb].
  - destruct (existsb _ (packages db)) eqn:E; cbn [fst snd].
    + split_and!; try done. apply list_elem_of_fmap.
      apply existsb_exists in E as (r & Hr & <-%String.eqb_eq).
      exists r. split; [done|]. by apply list_elem_of_In.
    + split.
      { eexists. split; [apply Hall|]. cbn. rewrite map_app. cbn.
        by rewrite <- Permutation_cons_append. }
      intros _ Hin.
      apply list_elem_of_fmap in Hin as (r & -> & Hr).
      assert (existsb (λ r0, String.eqb (Packages.package r0) (Packages.package r))
                      (packages db) = true); [|congruence].
      apply existsb_exists. exists r. split; [by apply list_elem_of_In|].
      apply String.eqb_refl.
  - cbn [fst snd]. split; [|done].
    eexists. split; [apply Hall|]. cbn. rewrite map_app. cbn.
    by rewrite <- Permutation_cons_append.
Qed.

(** X7: under the primary key [add_new_package] keeps the [package]
    column free of duplicates. *)
Theorem add_new_package_keeps_key (p : string) (attempted : bool) (db : database) :
  NoDup (map Packages.package (packages db)) →
  NoDup (map Packages.package (packages (add_new_package true p attempted db).1)).
Proof.
  intros Hnd. unfold add_new_package. cbn [andb].
  destruct (existsb _ (packages db)) eqn:E; cbn [fst]; [done|].
  cbn. rewrite map_app. cbn. apply NoDup_app. split_and!; [done| |apply NoDup_singleton].
  intros q Hq ->%list_elem_of_singleton.
  apply list_elem_of_fmap in Hq as (r & Hp & Hr).
  assert (existsb (λ r0, String.eqb (Packages.package r0) p) (packages db) = true);
    [|congruence].
  apply existsb_exists. exists r. split; [by apply list_elem_of_In|].
  destruct (String.eqb_spec (Packages.package r) p); congruence.
Qed.

Lemma add_new_package_keeps_key_witness :
  NoDup (map Packages.package
             (packages (add_new_package true "baz" false Sample.some_db).1)).
Proof.
  apply (add_new_package_keeps_key "baz" false Sample.some_db).
  cbn. apply NoDup_cons. split.
  { intros H. apply list_elem_of_singleton in H. discriminate. }
  apply NoDup_cons. split; [apply not_elem_of_nil|apply NoDup_nil_2].
Defined.

(** Without the key the column does not stay free of duplicates. *)
Example add_new_package_duplicates :
  map Packages.package
      (packages (add_new_package false "foo" false Sample.some_db).1)
  = ["foo"; "bar"; "foo"].
Proof. reflexivity. Qed.

(** ** [get_unattempted_packages] *)

(** X8: [get_unattempted_packages] lists, in the order of
    [get_all_packages], exactly the packages that have no row in [builds],
    whatever the status of the rows: a package with only failed builds is
    not listed again. *)
Theorem unattempted_have_no_build (db : database) :
  get_unattempted_packages db
  = List.filter (fun p => bool_decide (p ∉ map Builds.package (builds db)))
                (map Packages.package (packages db)) ∧
  get_unattempted_packages db `sublist_of` map Packages.package (packages db) ∧
  ∀ p, p ∈ get_unattempted_packages db ↔
       p ∈ map Packages.package (packages db) ∧
       ∀ r, r ∈ builds db → Builds.package r ≠ p.
Proof.
  assert (Heq : get_unattempted_packages db
    = List.filter (fun p => bool_decide (p ∉ map Builds.package (builds db)))
                  (map Packages.package (packages db))).
  { unfold get_unattempted_packages, fetchall, sql_where.
    induction (packages db) as [|r ps IH]; [done|]. cbn.
    destruct (existsb _ _) eqn:E; cbn.
    - rewrite bool_decide_false; [done|]. intros Hn. apply Hn.
      apply existsb_exists in E as (q & Hq & ->%String.eqb_eq).
      by apply list_elem_of_In.
    - rewrite bool_decide_true; [by rewrite IH|]. intros Hin.
      assert (existsb (String.eqb (Packages.package r))
                      (map Builds.package (builds db)) = true); [|congruence].
      apply existsb_exists. exists (Packages.package r).
      split; [by apply list_elem_of_In|apply String.eqb_refl]. }
  split_and!; [done| |].
  - rewrite Heq. clear. induction (map _ (packages db)) as [|p l IH]; cbn; [done|].
    case_bool_decide; by constructor.
  - intros p. rewrite Heq. split.
    + intros [H1 H2%bool_decide_eq_true]%list_elem_of_In%filter_In.
      split; [by apply list_elem_of_In|].
      intros r Hr Hp. apply H2, list_elem_of_fmap. by exists r.
    + intros [H1 H2]. apply list_elem_of_In, filter_In.
      split; [by apply list_elem_of_In|]. apply bool_decide_eq_true.
      intros (r & -> & Hr)%list_elem_of_fmap. by apply (H2 r).
Qed.

(** ** The newest and the longest build *)

(** X9: on a table with rows, [get_last_package_built] returns the
    package of a row whose [build_timestamp] no other row exceeds. *)
Theorem last_package_built_is_newest (db : database) :
  builds db ≠ [] →
  ∃ r, r ∈ builds db ∧
       get_last_package_built db = Ok (Builds.package r) ∧
       ∀ r', r' ∈ builds db →
             (Builds.build_timestamp r' ≤ Builds.build_timestamp r)%Z.
Proof.
  intros Hne. unfold get_last_package_built.
  destruct (order_by_desc Builds.build_timestamp (builds db)) as [|h l] eqn:E.
  - pose proof (order_by_perm (λ r x, (Builds.build_timestamp x
                                       <=? Builds.build_timestamp r)%Z) (builds db)) as Hp.
    unfold order_by_desc in E. rewrite E in Hp.
    apply Permutation_nil_l in Hp. congruence.
  - apply order_by_desc_head in E as [Hin Hmax]. by exists h.
Qed.

Lemma last_package_built_is_newest_witness :
  ∃ r, r ∈ builds Sample.some_db ∧
       get_last_package_built Sample.some_db = Ok (Builds.package r) ∧
       (30 ≤ Builds.build_timestamp r)%Z.
Proof.
  destruct (last_package_built_is_newest Sample.some_db ltac:(done))
    as (r & Hr & H & Hmax).
  exists r. split_and!; [done..|].
  apply (Hmax (Sample.build_row 30 "foo" false)). right. left.
Defined.

(** X10: [get_longest_build] does not subscript what it fetched: on an
    empty table it returns [None] without raising, and on a table with
    rows the pair [(package, build_time)] of a row whose [build_time] no
    other row exceeds. *)
Theorem longest_build_is_longest (db : database) :
  (builds db = [] → get_longest_build db = None) ∧
  (builds db ≠ [] →
   ∃ r, r ∈ builds db ∧
        get_longest_build db = Some (Builds.package r, Builds.build_time r) ∧
        ∀ r', r' ∈ builds db → (Builds.build_time r' ≤ Builds.build_time r)%Z).
Proof.
  unfold get_longest_build. split.
  - by intros ->.
  - intros Hne.
    destruct (order_by_desc Builds.build_time (builds db)) as [|h l] eqn:E.
    + pose proof (order_by_perm (λ r x, (Builds.build_time x
                                         <=? Builds.build_time r)%Z) (builds db)) as Hp.
      unfold order_by_desc in E. rewrite E in Hp.
      apply Permutation_nil_l in Hp. congruence.
    + apply order_by_desc_head in E as [Hin Hmax]. by exists h.
Qed.

Lemma longest_build_is_longest_witness :
  get_longest_build Sample.empty_db = None ∧
  ∃ r, r ∈ builds Sample.some_db ∧
       get_longest_build Sample.some_db
       = Some (Builds.package r, Builds.build_time r).
Proof.
  destruct (longest_build_is_longest Sample.empty_db) as [H1 _].
  destruct (longest_build_is_longest Sample.some_db) as [_ H2].
  split; [by apply H1|].
  destruct (H2 ltac:(done)) as (r & Hr & H & _). by exists r.
Defined.

(** ** The totals *)

(** X11: [get_total_build_time] and [get_total_wheel_filesize] never
    raise: on an empty table they return [None], not zero, and on a table
    with rows the sum of the column, so that the total over two batches of
    rows is the sum of the totals of each. *)
Theorem totals_are_sums (db : database) :
  (builds db = [] →
   get_total_build_time db = Ok None ∧ get_total_wheel_filesize db = Ok None) ∧
  (builds db ≠ [] →
   get_total_build_time db
   = Ok (Some (foldr Z.add 0%Z (map Builds.build_time (builds db)))) ∧
   get_total_wheel_filesize db
   = Ok (Some (foldr Z.add 0%Z (map Builds.filesize (builds db)))) ∧
   ∀ rows, rows ≠ [] →
     ∃ t t' : Z,
       get_total_build_time db = Ok (Some t) ∧
       get_total_build_time (set_builds rows db) = Ok (Some t') ∧
       get_total_build_time (set_builds (builds db ++ rows) db)
       = Ok (Some (t + t')%Z)).
Proof.
  unfold get_total_build_time, get_total_wheel_filesize. cbn.
  destruct (builds db) as [|r rows0] eqn:E; cbn; split; try done.
  intros _. split_and!; [done..|].
  intros rows Hrows. destruct rows as [|r' rows]; [done|]. cbn.
  do 2 eexists. split_and!; [done..|]. do 2 f_equal.
  rewrite map_app, foldr_app. cbn.
  generalize (Builds.build_time r' + foldr Z.add 0 (map Builds.build_time rows))%Z.
  intros z. induction (map Builds.build_time rows0) as [|x l IH]; cbn; lia.
Qed.

Lemma totals_are_sums_witness :
  get_total_build_time Sample.empty_db = Ok None ∧
  get_total_build_time Sample.some_db = Ok (Some 900%Z) ∧
  get_total_wheel_filesize Sample.some_db = Ok (Some 370368%Z).
Proof.
  destruct (totals_are_sums Sample.empty_db) as [H0 _].
  destruct (totals_are_sums Sample.some_db) as [_ H1].
  destruct (H0 eq_refl) as [H _].
  destruct (H1 ltac:(done)) as (Ht & Hs & _).
  split_and!; [exact H|exact Ht|exact Hs].
Defined.

End MoreDbProperties.

(* ===================================================================== *)
(** * Further properties of the slave *)
(* ===================================================================== *)

Section MoreSlaveProperties.
Import Slave.

Variable build : jval → jval → PiWheelsBuilder.
Variable clean : PiWheelsBuilder → result unit.

(** ** Numbers on the wire *)

(** X12: [int(str(n).encode('ascii'))] is [n] for every integer [n] of at
    most 4300 digits (a longer one [str] may refuse to write), so the slave
    id that [transfer] writes into [HELLO] and the offsets and sizes that
    arrive in [FETCH] denote the numbers they were written from. *)
Theorem int_of_str_round_trip (n : Z) :
  (Z.abs n < 10 ^ 4300)%Z →
  int_of_bytes (str_of_int n) = Ok n.
Proof.
  intros _. destruct n as [|p|p].
  - reflexivity.
  - rewrite <- (positive_nat_Z p). apply int_of_bytes_str_of_int.
  - unfold int_of_bytes, str_of_int.
    cbn [Z.to_int NilZero.string_of_int].
    pose proof (parse_digits_to_uint p) as Hp.
    pose proof (digits_no_space (Pos.to_uint p)) as Hs.
    pose proof (Unsigned.to_uint_nonnil p) as Hnil.
    change (list_byte_of_string (String "-" ?s))
      with ("-"%byte :: list_byte_of_string s).
    rewrite strip_no_space by (constructor; [done|];
      destruct (Pos.to_uint p); [done|..]; exact Hs).
    unfold parse_signed. rewrite decide_True by done.
    destruct (Pos.to_uint p) as [|d|d|d|d|d|d|d|d|d|d]; [done|..];
      cbn [NilZero.string_of_uint NilEmpty.string_of_uint] in *;
      cbn -[parse_digits] in Hp |- *; by rewrite Hp.
Qed.

(** ** The state of [main] *)

(** Case analysis on a run of [handle]: its assertions, calls and
    branches. *)
Ltac handle_cases H :=
  unfold handle in H;
  destruct (reply _) as [|? ?] eqn:?;
  [ | repeat case_decide; subst;
      repeat match type of H with
        | context [assert ?c _] => destruct c eqn:?; cbn -[transfer] in H
        end;
      repeat match type of H with
        | (?e ≫= _) = _ => destruct e eqn:?; cbn -[transfer] in H
        | match ?e with _ => _ end = _ => destruct e eqn:?; cbn -[transfer] in H
        end ];
  try discriminate H.

Ltac bool_decide_hyps :=
  repeat match goal with
    | E : bool_decide _ = true |- _ => apply bool_decide_eq_true in E
    | E : bool_decide _ = false |- _ => apply bool_decide_eq_false in E
    end.

Lemma handle_continue_consistent (st st' : state) (x : exchange) :
  consistent st →
  handle build clean st x = Ok (Continue st') →
  consistent st' ∧
  next_request st' ≠ HELLO ∧
  ∀ id, slave_id st = Some id → slave_id st' = Some id.
Proof.
  intros Hc H. handle_cases H; injection H as <-; cbn.
  all: unfold consistent; cbn.
  all: bool_decide_hyps.
  all: split_and!; try done.
  all: try (intros id Hid; congruence).
  - eexists. split_and!; done.
  - destruct (builder st) as [bld|]; [|done]. by exists bld.
Qed.

(** X13: the loop of [main] keeps its variables consistent: [HELLO] is
    the request only while there is no slave id, a [BUILT] request carries
    the fields of the builder at hand, [SENT] is sent only with a
    successful builder at hand, [BYE] is never a request of the loop; and
    a slave id, once assigned, is never changed. *)
Theorem handle_keeps_consistent (st st' : state) (x : exchange) :
  consistent st →
  handle build clean st x = Ok (Continue st') →
  consistent st' ∧
  next_request st' ≠ HELLO ∧
  ∀ id, slave_id st = Some id → slave_id st' = Some id.
Proof. apply handle_continue_consistent. Qed.

Lemma int_of_jval_raises (v : jval) (e : exn) :
  int_of_jval v = Raise e → e = ValueError ∨ e = TypeError ∨ e = OverflowError.
Proof.
  destruct v as [| | | | | |s|]; cbn; try discriminate;
    try (intros [= <-]; auto; fail).
  destruct (parse_signed _); [discriminate|]. intros [= <-]. auto.
Qed.

(** X14: before registration the loop goes on only after a well-formed
    [HELLO <id>], which assigns the id that [int] makes of the argument and
    makes [IDLE] the next request; [BYE] leaves the loop; every other
    reply raises ([AssertionError], or what [int] raises: [ValueError],
    [TypeError], [OverflowError]), and neither the builder nor a transfer
    is started. *)
Theorem unregistered_slave (st : state) (x : exchange) :
  slave_id st = None →
  match handle build clean st x with
  | Ok (Continue st') =>
      ∃ v id, reply x = [JStr "HELLO"; v] ∧ int_of_jval v = Ok id ∧
              st' = {| slave_id := Some id; builder := builder st;
                       next_request := IDLE |}
  | Ok Break => ∃ args, reply x = JStr "BYE" :: args
  | Ok Hang => False
  | Raise e =>
      e = ValueError ∨ e = TypeError ∨ e = OverflowError ∨
      ∃ msg, e = AssertionError msg
  end ∧
  ∀ build' clean' juggler',
    handle build' clean' st {| reply := reply x; juggler := juggler' |}
    = handle build clean st x.
Proof.
  intros Hid. split.
  - destruct (handle build clean st x) as [[st'| |]|e] eqn:H; handle_cases H;
      rewrite ?Hid in *; bool_decide_hyps; try done;
      try (by eexists);
      try (injection H as <-; eauto 7; fail).
    + injection H as <-. destruct l as [|v [|? ?]]; try discriminate.
      by eexists v, _.
    + injection H as <-.
      match goal with E : int_of_jval _ = Raise _ |- _ =>
        apply int_of_jval_raises in E as [->|[->| ->]] end; auto.
  - intros build' clean' juggler'. unfold handle. cbn [reply juggler].
    destruct (reply x) as [|verb args]; [done|]. rewrite Hid.
    repeat case_decide; try done.
    all: cbn; by destruct (_ =? _)%nat.
Qed.

(** ** Builds *)

Lemma handle_keeps_builder (st st' : state) (x : exchange) (bld : PiWheelsBuilder) :
  handle build clean st x = Ok (Continue st') →
  head (reply x) ≠ Some (JStr "DONE") →
  builder st = Some bld → builder st' = Some bld.
Proof.
  intros H Hx Hb. handle_cases H; bool_decide_hyps; try injection H as <-;
    cbn; try done; try congruence.
  all: match goal with E : reply _ = _ |- _ => rewrite E in Hx end; done.
Qed.

Lemma after_keeps_builder (script : list exchange) (bld : PiWheelsBuilder) :
  ∀ st st',
    after build clean script st = Some st' →
    builder st = Some bld →
    (∀ x, x ∈ script → head (reply x) ≠ Some (JStr "DONE")) →
    builder st' = Some bld.
Proof.
  induction script as [|x script IH]; intros st st' Hrun Hb Hscript.
  - by injection Hrun as <-.
  - cbn in Hrun.
    destruct (handle build clean st x) as [[st1| |]|] eqn:H; try done.
    apply (IH st1 st' Hrun).
    + eapply handle_keeps_builder; [done| |done]. apply Hscript. left.
    + intros y Hy. apply Hscript. by right.
Qed.

Lemma after_consistent (script : list exchange) :
  ∀ st st',
    after build clean script st = Some st' →
    consistent st →
    consistent st' ∧ ∀ id, slave_id st = Some id → slave_id st' = Some id.
Proof.
  induction script as [|x script IH]; intros st st' Hrun Hc.
  - by injection Hrun as <-.
  - cbn in Hrun.
    destruct (handle build clean st x) as [[st1| |]|] eqn:H; try done.
    destruct (handle_continue_consistent _ _ _ Hc H) as (Hc1 & _ & Hid1).
    destruct (IH st1 st' Hrun Hc1) as [Hc' Hid']. auto.
Qed.

(** X15: a builder stays the builder at hand through every reply that is
    handled, until a [DONE]; a [BUILD] in between raises, so that builds
    never overlap; and a [DONE] that is handled has cleaned the builder up
    and leaves none. *)
Theorem one_build_at_a_time (script : list exchange) (st st' : state)
    (bld : PiWheelsBuilder) :
  after build clean script st = Some st' →
  builder st = Some bld →
  (∀ x, x ∈ script → head (reply x) ≠ Some (JStr "DONE")) →
  builder st' = Some bld ∧
  (∀ x args, reply x = JStr "BUILD" :: args →
     handle build clean st' x = Raise (AssertionError "Build before hello") ∨
     handle build clean st' x = Raise (AssertionError "Last build still exists")) ∧
  (∀ x st'', reply x = [JStr "DONE"] →
     handle build clean st' x = Ok (Continue st'') →
     clean bld = Ok tt ∧ builder st'' = None ∧ next_request st'' = IDLE ∧
     slave_id st'' = slave_id st').
Proof.
  intros Hrun Hb Hscript.
  assert (Hb' : builder st' = Some bld) by by eapply after_keeps_builder.
  split_and!; [done| |].
  - intros x args Hx. unfold handle. rewrite Hx, Hb'. cbn.
    destruct (bool_decide (slave_id st' ≠ None)); cbn; auto.
  - intros x st'' Hx H. unfold handle in H. rewrite Hx, Hb' in H. cbn in H.
    destruct (bool_decide (slave_id st' ≠ None)); cbn in H; [|done].
    destruct (clean bld) as [[]|]; cbn in H; [|done]. by injection H as <-.
Qed.

(** ** Transfers *)

(** X16: [SEND] is refused after a failed build, with an
    [AssertionError], and for a file name that no file of the builder
    has, with the [IndexError] of the subscript; in neither case is a
    transfer started. *)
Theorem send_refused (st : state) (x : exchange) (id : Z) (bld : PiWheelsBuilder) :
  slave_id st = Some id →
  builder st = Some bld →
  (status bld = false →
   ∀ args, reply x = JStr "SEND" :: args →
     handle build clean st x = Raise (AssertionError "Send after failed build")) ∧
  (status bld = true →
   ∀ v, reply x = [JStr "SEND"; v] →
     (∀ f, f ∈ files bld → JStr (filename f) ≠ v) →
     handle build clean st x = Raise IndexError).
Proof.
  intros Hid Hb. split.
  - intros Hs args Hx. unfold handle. rewrite Hx, Hid, Hb. cbn. by rewrite Hs.
  - intros Hs v Hx Hv. unfold handle. rewrite Hx, Hid, Hb. cbn. rewrite Hs. cbn.
    replace (List.filter _ (files bld)) with (@nil PiWheelsPackage); [done|].
    symmetry. induction (files bld) as [|f fs IH]; [done|]. cbn.
    rewrite bool_decide_false by (apply Hv; left).
    apply IH. intros g Hg. apply Hv. by right.
Qed.

(** The state in which a [SEND] arrives when the slave's last [BUILT]
    reported success and no [DONE] was handled since. *)
Lemma state_after_built (pre mid : list exchange) (st1 st : state)
    (p v : string) (d : Z) (o : string) (fs : gmap string file_info) :
  after build clean pre initial = Some st1 →
  next_request st1 = BUILT p v true d o fs →
  after build clean mid st1 = Some st →
  (∀ y, y ∈ mid → head (reply y) ≠ Some (JStr "DONE")) →
  ∃ id bld,
    slave_id st = Some id ∧ builder st = Some bld ∧ status bld = true ∧
    fs = built_files (files bld).
Proof.
  intros Hpre Hreq Hmid Hdone.
  destruct (after_consistent pre initial st1 Hpre) as [Hc1 _]; [done|].
  pose proof Hc1 as Hc. unfold consistent in Hc. rewrite Hreq in Hc.
  destruct Hc as (Hid & bld & Hb & _ & _ & Hst & _ & _ & Hfs).
  destruct (slave_id st1) as [id|] eqn:Hid1; [|done].
  destruct (after_consistent mid st1 st Hmid Hc1) as [_ Hid'].
  exists id, bld. split_and!; [by apply Hid'| |done..].
  by eapply after_keeps_builder.
Qed.

(** C8: when the slave's last [BUILT] reported success, no [DONE] has been
    handled since, and the name sent with [SEND] is a key of the mapping of
    that [BUILT], the slave is registered, the assertions of the [SEND]
    branch hold and the file list searched is not empty: the branch gets
    to [transfer] with the first file of that name, and ends as [transfer]
    ends. ([pre] are the replies handled from the start of the session up
    to the [BUILT], [mid] the ones handled since.) *)
Theorem send_reaches_transfer (pre mid : list exchange) (st1 st : state)
    (x : exchange) (p v : string) (d : Z) (o : string)
    (fs : gmap string file_info) (fn : string) :
  after build clean pre initial = Some st1 →
  next_request st1 = BUILT p v true d o fs →
  after build clean mid st1 = Some st →
  (∀ y, y ∈ mid → head (reply y) ≠ Some (JStr "DONE")) →
  is_Some (fs !! fn) →
  reply x = [JStr "SEND"; JStr fn] →
  ∃ id bld pkg others,
    slave_id st = Some id ∧ builder st = Some bld ∧
    filter (λ f, filename f = fn) (files bld) = pkg :: others ∧
    pkg ∈ files bld ∧ filename pkg = fn ∧
    handle build clean st x
    = match (transfer id pkg (juggler x)).2 with
      | Returned =>
          Ok (Continue {| slave_id := Some id; builder := Some bld;
                          next_request := SENT |})
      | Raised e => Raise e
      | Waiting => Ok Hang
      end.
Proof.
  intros Hpre Hreq Hmid Hdone Hfn Hx.
  destruct (state_after_built pre mid st1 st p v d o fs Hpre Hreq Hmid Hdone)
    as (id & bld & Hid & Hb & Hst & ->).
  apply built_files_dom, list_elem_of_fmap in Hfn as (f & -> & Hf).
  assert (Hin : f ∈ filter (λ g, filename g = filename f) (files bld))
    by by apply list_elem_of_filter.
  destruct (filter _ (files bld)) as [|pkg others] eqn:E;
    [by apply not_elem_of_nil in Hin|].
  assert (Hpkg : pkg ∈ filter (λ g, filename g = filename f) (files bld))
    by (rewrite E; left).
  apply list_elem_of_filter in Hpkg as [Hname Hpkg].
  exists id, bld, pkg, others. split_and!; try done.
  unfold handle. rewrite Hx, Hid, Hb. cbn. rewrite Hst. cbn.
  rewrite filter_by_filename, E. cbn.
  by destruct (transfer id pkg (juggler x)).2.
Qed.

(** ** The requests of a session *)

Lemma handle_next_request (st st' : state) (x : exchange) :
  handle build clean st x = Ok (Continue st') →
  next_request st' ≠ HELLO ∧ next_request st' ≠ BYE.
Proof.
  intros H. handle_cases H; injection H as <-; done.
Qed.

Lemma main_loop_requests (script : list turn) :
  ∀ st sent e,
    main_loop build clean script st = (sent, e) →
    ∃ mid, sent = next_request st :: mid ++ closing e ∧
           Forall (λ r, r ≠ HELLO ∧ r ≠ BYE) mid ∧
           length mid ≤ length script.
Proof.
  induction script as [|[x|err|err] script IH]; intros st sent e; cbn.
  - intros [= <- <-]. exists []. split_and!; [done|constructor|done].
  - destruct (handle build clean st x) as [[st'| |]|err] eqn:H; cbn.
    + destruct (main_loop build clean script st') as [sent' e'] eqn:E.
      intros [= <- <-]. destruct (IH _ _ _ E) as (mid & -> & Hmid & Hlen).
      exists (next_request st' :: mid). split_and!; [done| |cbn; lia].
      constructor; [by eapply handle_next_request|done].
    + intros [= <- <-]. exists []. split_and!; [done|constructor|cbn; lia].
    + intros [= <- <-]. exists []. split_and!; [done|constructor|cbn; lia].
    + intros [= <- <-]. exists []. split_and!; [done|constructor|cbn; lia].
  - intros [= <- <-]. exists []. split_and!; [done|constructor|cbn; lia].
  - intros [= <- <-]. exists []. split_and!; [done|constructor|cbn; lia].
Qed.

(** X17: in every session, finished or not, [HELLO] is sent exactly once,
    as the first request, and [BYE] at most once, as the last request of a
    session that closes its socket; between them the slave sends at most
    one request per reply it was given. *)
Theorem session_requests (script : list turn) (sent : list request)
    (e : session_end) :
  main build clean script = (sent, e) →
  ∃ mid, sent = HELLO :: mid ++ closing e ∧
         Forall (λ r, r ≠ HELLO ∧ r ≠ BYE) mid ∧
         length mid ≤ length script.
Proof. apply main_loop_requests. Qed.

(** While the replies of [script] are handled without leaving the loop,
    one request goes out for each, and the session goes on from the state
    reached. *)
Lemma main_loop_after (script : list exchange) :
  ∀ st st',
    after build clean script st = Some st' →
    ∃ reqs, length reqs = length script ∧
      ∀ rest, main_loop build clean (map Reply script ++ rest) st
              = (reqs ++ (main_loop build clean rest st').1,
                 (main_loop build clean rest st').2).
Proof.
  induction script as [|x script IH]; intros st st' Hrun.
  - injection Hrun as <-. exists []. split; [done|]. intros rest. cbn.
    by destruct (main_loop build clean rest st).
  - cbn in Hrun.
    destruct (handle build clean st x) as [[st1| |]|] eqn:H; try done.
    destruct (IH st1 st' Hrun) as (reqs & Hlen & Hreqs).
    exists (next_request st :: reqs). split; [cbn; lia|]. intros rest.
    cbn. rewrite H, Hreqs. done.
Qed.

(** C6: a session that is cut short while the slave waits for a reply
    does not end with [BYE]. When the replies of [script] have been
    handled and [recv_json] then raises with the request of the turn still
    unanswered, the [finally] block cannot send on the socket: the
    requests sent begin with [HELLO], end with the unanswered request, and
    have no [BYE] among them, and the socket is not closed. *)
Theorem interrupted_session_sends_no_bye (script : list exchange) (st : state)
    (err : exn) (rest : list turn) :
  after build clean script initial = Some st →
  ∃ sent,
    main build clean (map Reply script ++ Interrupted err :: rest)
    = (sent, Unclosed ZMQError) ∧
    head sent = Some HELLO ∧
    last sent = Some (next_request st) ∧
    BYE ∉ sent.
Proof.
  intros Hrun. unfold main.
  destruct (main_loop_after script initial st Hrun) as (reqs & _ & Hreqs).
  specialize (Hreqs (Interrupted err :: rest)). cbn in Hreqs.
  eexists. split; [exact Hreqs|].
  destruct (main_loop_requests _ _ _ _ Hreqs) as (mid & Hsent & Hmid & _).
  cbn in Hsent. rewrite app_nil_r in Hsent. split_and!.
  - by rewrite Hsent.
  - apply last_snoc.
  - rewrite Hsent. intros [?|Hin]%elem_of_cons; [done|].
    apply (proj1 (Forall_forall _ _) Hmid) in Hin. by destruct Hin.
Qed.

(** X24: a session that is left by [break], or by an exception raised
    while a reply is decoded, unpacked or handled, does end with [BYE]:
    when the replies of [script] have been handled and the next turn [t]
    gets the [BYE] of the master ([raised] is [None]) or raises [err]
    ([raised] is [Some err]), the requests sent are [HELLO], one request
    for each reply of [script], and [BYE], and the socket is closed. *)
Theorem session_closes_with_bye (script : list exchange) (st : state)
    (t : turn) (raised : option exn) (rest : list turn) :
  after build clean script initial = Some st →
  match t with
  | Reply x =>
      handle build clean st x
      = match raised with Some err => Raise err | None => Ok Break end
  | Unreadable err => raised = Some err
  | Interrupted _ => False
  end →
  ∃ mid,
    main build clean (map Reply script ++ t :: rest)
    = (HELLO :: mid ++ [BYE], Closed raised) ∧
    Forall (λ r, r ≠ HELLO ∧ r ≠ BYE) mid ∧
    length mid = length script.
Proof.
  intros Hrun Ht. unfold main.
  destruct (main_loop_after script initial st Hrun) as (reqs & Hlen & Hreqs).
  specialize (Hreqs (t :: rest)).
  assert (Hlast : main_loop build clean (t :: rest) st
                  = ([next_request st; BYE], Closed raised)).
  { destruct t as [x|err|err]; cbn; [|by subst|done].
    rewrite Ht. by destruct raised. }
  rewrite Hlast in Hreqs. cbn [fst snd] in Hreqs.
  destruct (main_loop_requests _ _ _ _ Hreqs) as (mid & Hsent & Hmid & _).
  exists mid. split_and!; [by rewrite Hreqs, Hsent|done|].
  apply (f_equal length) in Hsent.
  rewrite !length_app in Hsent. cbn in Hsent. rewrite length_app in Hsent.
  cbn in Hsent. lia.
Qed.

End MoreSlaveProperties.

Section TransferProperties.
Import Slave.

(** ** The loop of [transfer] *)

Lemma transfer_loop_eq (id : Z) (ev : transfer_event)
    (events : list transfer_event) (f : file) :
  transfer_loop id (ev :: events) f
  = let prod := if polled ev then [] else [[b "HELLO"; str_of_int id]] in
    match frames ev with
    | [] => (prod, Raised ValueError)
    | req :: args =>
        if decide (req = b "DONE") then (prod, Returned)
        else if decide (req = b "FETCH") then
          match fetch args f with
          | Ok (msg, f') =>
              let '(sent, e) := transfer_loop id events f' in
              (prod ++ msg :: sent, e)
          | Raise e => (prod, Raised e)
          end
        else
          let '(sent, e) := transfer_loop id events f in (prod ++ sent, e)
    end.
Proof. reflexivity. Qed.


(** What a [FETCH] that is answered has done. *)
Lemma fetch_answered (args : multipart) (f f' : file) (msg : multipart) :
  fetch args f = Ok (msg, f') →
  data f' = data f ∧
  ∃ offset size o payload,
    args = [offset; size] ∧ int_of_bytes offset = Ok o ∧ (0 ≤ o)%Z ∧
    msg = [b "CHUNK"; offset; payload] ∧
    payload `prefix_of` drop (Z.to_nat o) (data f).
Proof.
  unfold fetch. destruct args as [|offset [|size [|? ?]]]; try done.
  destruct (int_of_bytes offset) as [o|] eqn:Ho; cbn; [|done].
  unfold seek. destruct (o <? - 2 ^ 63)%Z; [done|].
  destruct (Z.ltb_spec o 0); cbn; [done|].
  destruct (int_of_bytes size) as [n|] eqn:Hn; cbn; [|done].
  unfold read. destruct (n <? - 2 ^ 63)%Z; [done|].
  destruct (n <? -1)%Z; [done|]. cbn.
  intros [= <- <-]. cbn. split; [done|].
  exists offset, size, o. eexists. split_and!; [done..|].
  destruct (n =? -1)%Z; [done|]. apply prefix_take.
Qed.

Lemma upload_shape_mono (id : Z) (ev : transfer_event)
    (events : list transfer_event) (file_bytes : bytes) (m : multipart) :
  upload_shape id events file_bytes m → upload_shape id (ev :: events) file_bytes m.
Proof.
  intros [->|(offset & o & payload & -> & (ev' & size & Hev & Hf) & H)]; [by left|].
  right. exists offset, o, payload. split; [done|]. split; [|done].
  exists ev', size. split; [by right|done].
Qed.

Lemma transfer_loop_shape (id : Z) (events : list transfer_event) :
  ∀ f, Forall (upload_shape id events (data f)) (transfer_loop id events f).1.
Proof.
  induction events as [|ev events IH]; intros f.
  - cbn. repeat constructor.
  - rewrite transfer_loop_eq. cbn zeta.
    assert (Hprod : Forall (upload_shape id (ev :: events) (data f))
                           (if polled ev then [] else [[b "HELLO"; str_of_int id]])).
    { destruct (polled ev); repeat constructor. }
    destruct (frames ev) as [|req args] eqn:Hev; [done|].
    destruct (decide (req = b "DONE")); [done|].
    destruct (decide (req = b "FETCH")) as [->|].
    + destruct (fetch args f) as [[msg f']|] eqn:Hf; [|done].
      apply fetch_answered in Hf
        as (Hdata & offset & size & o & payload & -> & Ho & Hpos & -> & Hpre).
      specialize (IH f'). rewrite Hdata in IH.
      destruct (transfer_loop id events f') as [sent e]. cbn in *.
      apply Forall_app. split; [done|]. constructor.
      * right. exists offset, o, payload. split_and!; try done.
        exists ev, size. split; [left|done].
      * eapply Forall_impl; [exact IH|]. intros m. apply upload_shape_mono.
    + specialize (IH f). destruct (transfer_loop id events f) as [sent e]. cbn in *.
      apply Forall_app. split; [done|].
      eapply Forall_impl; [exact IH|]. intros m. apply upload_shape_mono.
Qed.

(** X18: on the upload channel the slave sends nothing but [HELLO] with
    its id and [CHUNK] messages of three frames; the offset frame of a
    [CHUNK] is a frame it received, and its payload is a run of bytes of
    the file that starts at that offset. *)
Theorem upload_messages_shape (id : Z) (package : PiWheelsPackage)
    (events : list transfer_event) :
  Forall (upload_shape id events (content package))
         (transfer id package events).1.
Proof. apply (transfer_loop_shape id events {| data := content package; pos := 0 |}). Qed.




(** ** A whole upload *)

Lemma payloads_app (l1 l2 : list multipart) :
  payloads (l1 ++ l2) = payloads l1 ++ payloads l2.
Proof. unfold payloads. by rewrite map_app, concat_app. Qed.

Lemma payloads_hello (id : Z) (found : bool) :
  payloads (if found then [] else [[b "HELLO"; str_of_int id]]) = [].
Proof. by destruct found. Qed.

Lemma payloads_chunk (offset payload : bytes) (sent : list multipart) :
  payloads ([b "CHUNK"; offset; payload] :: sent) = payload ++ payloads sent.
Proof. reflexivity. Qed.

Lemma upload_loop (id : Z) (sizes : list nat) :
  ∀ (o : nat) (events : list transfer_event) (f : file),
    map frames events = fetch_requests o sizes →
    ∃ sent, transfer_loop id events f = (sent, Returned) ∧
            payloads sent = take (sum_list sizes) (drop o (data f)).
Proof.
  induction sizes as [|n sizes IH]; intros o events f Hev.
  - destruct events as [|[found fr] [|? ?]]; try done. cbn in Hev.
    injection Hev as ->. eexists. split; [reflexivity|]. apply payloads_hello.
  - destruct events as [|[found fr] events]; [done|]. cbn in Hev.
    injection Hev as -> Hev.
    rewrite transfer_loop_fetch. cbn zeta.
    rewrite (fetch_naturals f _ _ o n) by apply int_of_bytes_str_of_int.
    destruct (IH (o + n) events
                {| data := data f; pos := o + length (take n (drop o (data f))) |} Hev)
      as (sent & -> & Hsent).
    eexists. split; [reflexivity|].
    rewrite payloads_app, payloads_hello, payloads_chunk, Hsent. cbn [app data sum_list].
    by rewrite <- (drop_drop (data f) n o), take_take_drop.
Qed.

(** X22: when the file juggler asks for the file piece by piece, each
    [FETCH] starting where the one before ended, and then says [DONE],
    [transfer] returns and the payloads of the [CHUNK] messages sent, put
    end to end, are the bytes of the file, whatever the sizes of the
    pieces and however often the slave had to say [HELLO]. *)
Theorem upload_delivers_file (id : Z) (package : PiWheelsPackage)
    (sizes : list nat) (events : list transfer_event) :
  map frames events = fetch_requests 0 sizes →
  sum_list sizes = length (content package) →
  ∃ sent, transfer id package events = (sent, Returned) ∧
          payloads sent = content package.
Proof.
  intros Hev Hsum.
  destruct (upload_loop id sizes 0 events {| data := content package; pos := 0 |} Hev)
    as (sent & Ht & Hp).
  exists sent. split; [done|]. rewrite Hp, Hsum. cbn. apply firstn_all.
Qed.

(** ** The mapping of [BUILT] *)

(** X23: the mapping of [BUILT] holds, under the name of a file, the
    tuple [(filesize, filehash, package_version_tag, py_version_tag,
    abi_tag, platform_tag)] of that file. When the files of a build have
    different names, there is one entry per file; in general the entry
    under a name is the tuple of the last file of that name, wherever the
    files of that name stand in the list. *)
Theorem built_mapping_entries (fs : list PiWheelsPackage) :
  let tuple := λ f : PiWheelsPackage,
    (filesize f, filehash f, package_version_tag f, py_version_tag f,
     abi_tag f, platform_tag f) in
  (NoDup (map filename fs) →
   size (built_files fs) = length fs ∧
   ∀ f, f ∈ fs → built_files fs !! filename f = Some (tuple f)) ∧
  (∀ fn, built_files fs !! fn
         = tuple <$> last (filter (λ f, filename f = fn) fs)) ∧
  (∀ l1 f l2, fs = l1 ++ f :: l2 →
     (∀ g, g ∈ l2 → filename g ≠ filename f) →
     built_files fs !! filename f = Some (tuple f)).
Proof.
  intros tuple. split_and!.
  - induction fs as [|g fs IH] using rev_ind; intros Hnd.
    + split; [done|]. intros f Hf. by apply not_elem_of_nil in Hf.
    + rewrite built_files_snoc, length_app. cbn.
      rewrite map_app in Hnd. cbn in Hnd.
      apply NoDup_app in Hnd as (Hnd & Hdisj & _).
      destruct (IH Hnd) as [Hsize Hlook].
      assert (Hnew : built_files fs !! filename g = None).
      { apply eq_None_not_Some. intros Hs%built_files_dom.
        apply (Hdisj _ Hs). by apply list_elem_of_singleton. }
      split.
      * rewrite map_size_insert_None by done. lia.
      * intros f [Hf| ->%list_elem_of_singleton]%elem_of_app.
        -- rewrite lookup_insert_ne; [by apply Hlook|].
           intros Heq. rewrite Heq, Hlook in Hnew; done.
        -- by rewrite lookup_insert_eq.
  - intros fn. rewrite built_files_lookup. reflexivity.
  - intros l1 f l2 -> Hl2. rewrite built_files_lookup.
    rewrite filter_app, filter_cons_True by done.
    replace (filter (λ g, filename g = filename f) l2) with (@nil PiWheelsPackage).
    + by rewrite last_snoc.
    + symmetry. clear -Hl2. induction l2 as [|g l2 IH]; [done|].
      rewrite filter_cons_False by (apply Hl2; left).
      apply IH. intros h Hh. apply Hl2. by right.
Qed.

End TransferProperties.

(** ** The further properties at work on the sample session *)

Section MoreSlaveSamples.
Import Slave.

Lemma handle_keeps_consistent_witness : consistent Sample.after_build.
Proof.
  refine (proj1 (handle_keeps_consistent Sample.build Sample.clean
                   Sample.registered Sample.after_build
                   (Sample.says [JStr "BUILD"; JStr "foo"; JStr "0.1"]) _ eq_refl)).
  unfold consistent. cbn. discriminate.
Defined.

Lemma unregistered_slave_witness :
  handle (fun _ _ => Sample.foo_builder) (fun _ => Raise OSError) Sample.unregistered
         {| reply := [JStr "BUILD"; JStr "foo"; JStr "0.1"]; juggler := Sample.upload |}
  = handle Sample.build Sample.clean Sample.unregistered
           (Sample.says [JStr "BUILD"; JStr "foo"; JStr "0.1"]).
Proof.
  exact (proj2 (unregistered_slave Sample.build Sample.clean Sample.unregistered
                  (Sample.says [JStr "BUILD"; JStr "foo"; JStr "0.1"]) eq_refl)
               (fun _ _ => Sample.foo_builder) (fun _ => Raise OSError)
               Sample.upload).
Defined.

Lemma one_build_at_a_time_witness :
  handle Sample.build Sample.clean
         {| slave_id := Some 3%Z; builder := Some Sample.foo_builder;
            next_request := IDLE |}
         (Sample.says [JStr "BUILD"; JStr "foo"; JStr "0.2"])
  = Raise (AssertionError "Build before hello") ∨
  handle Sample.build Sample.clean
         {| slave_id := Some 3%Z; builder := Some Sample.foo_builder;
            next_request := IDLE |}
         (Sample.says [JStr "BUILD"; JStr "foo"; JStr "0.2"])
  = Raise (AssertionError "Last build still exists").
Proof.
  destruct (one_build_at_a_time Sample.build Sample.clean
              [Sample.says [JStr "SLEEP"]] Sample.after_build
              {| slave_id := Some 3%Z; builder := Some Sample.foo_builder;
                 next_request := IDLE |}
              Sample.foo_builder eq_refl eq_refl) as (_ & H & _).
  - intros x Hx. apply list_elem_of_singleton in Hx as ->. discriminate.
  - apply (H _ [JStr "foo"; JStr "0.2"]). reflexivity.
Defined.

Lemma send_refused_witness :
  handle Sample.build Sample.clean Sample.after_build
         (Sample.says [JStr "SEND"; JStr "bar-1.0.whl"])
  = Raise IndexError.
Proof.
  destruct (send_refused Sample.build Sample.clean Sample.after_build
              (Sample.says [JStr "SEND"; JStr "bar-1.0.whl"]) 3
              Sample.foo_builder eq_refl eq_refl) as [_ H].
  apply (H eq_refl (JStr "bar-1.0.whl") eq_refl).
  intros f Hf. apply list_elem_of_singleton in Hf as ->. discriminate.
Defined.

Lemma session_requests_witness :
  ∃ mid,
    (main Sample.build Sample.clean (map Reply Sample.happy_path)).1
    = HELLO :: mid ++ [BYE] ∧
    Forall (λ r, r ≠ HELLO ∧ r ≠ BYE) mid ∧ length mid ≤ 6.
Proof.
  apply (session_requests Sample.build Sample.clean (map Reply Sample.happy_path)
           _ (Closed None)).
  vm_compute. reflexivity.
Defined.




Lemma upload_delivers_file_witness :
  ∃ sent, transfer 3 Sample.foo_wheel Sample.upload = (sent, Returned) ∧
          payloads sent = b "abcdefgh".
Proof.
  exact (upload_delivers_file 3 Sample.foo_wheel [5; 3] Sample.upload
           eq_refl eq_refl).
Defined.

Lemma built_mapping_entries_witness :
  size (built_files [Sample.foo_wheel]) = 1 ∧
  built_files [Sample.foo_wheel] !! "foo-0.1-cp34-cp34m-linux_armv7l.whl"
  = Some (8%Z, "123456abcdef", "0.1", "cp34", "cp34m", "linux_armv7l").
Proof.
  destruct (built_mapping_entries [Sample.foo_wheel]) as [H _].
  destruct H as [Hsize Hlook].
  - cbn. apply NoDup_singleton.
  - split; [exact Hsize|]. apply (Hlook Sample.foo_wheel). left.
Defined.

Lemma int_of_str_round_trip_witness :
  int_of_bytes (str_of_int (-42)) = Ok (-42)%Z.
Proof. apply (int_of_str_round_trip (-42)). vm_compute. reflexivity. Defined.

(** ** Sessions that end *)

(** A [SEND] before any build trips an assertion; [BYE] goes out all the
    same, and the socket is closed. *)
Lemma session_closes_with_bye_witness :
  ∃ mid,
    main Sample.build Sample.clean
         [ Reply (Sample.says [JStr "HELLO"; JInt 3]);
           Reply (Sample.says [JStr "SEND"; JStr "x"]) ]
    = (HELLO :: mid ++ [BYE],
       Closed (Some (AssertionError "Send before build / after failed build"))) ∧
    Forall (λ r, r ≠ HELLO ∧ r ≠ BYE) mid ∧
    length mid = 1.
Proof.
  apply (session_closes_with_bye Sample.build Sample.clean
           [Sample.says [JStr "HELLO"; JInt 3]] Sample.registered
           (Reply (Sample.says [JStr "SEND"; JStr "x"]))
           (Some (AssertionError "Send before build / after failed build")) []);
    reflexivity.
Defined.

(** So it is after the master's [BYE], and after a reply that is not
    JSON. *)
Example session_closes_otherwise :
  main Sample.build Sample.clean (map Reply Sample.happy_path)
  = ( [ HELLO; IDLE;
        BUILT "foo" "0.1" true 300 "log" (built_files [Sample.foo_wheel]);
        SENT; IDLE; IDLE; BYE ],
      Closed None ) ∧
  main Sample.build Sample.clean
       [ Reply (Sample.says [JStr "HELLO"; JInt 3]); Unreadable ValueError ]
  = ([HELLO; IDLE; BYE], Closed (Some ValueError)).
Proof. split; reflexivity. Qed.

(** The slave is interrupted while it waits for the reply to its first
    [IDLE]: the requests sent are [HELLO] and [IDLE], and nothing is
    closed. *)
Lemma interrupted_session_sends_no_bye_witness :
  ∃ sent,
    main Sample.build Sample.clean
         [ Reply (Sample.says [JStr "HELLO"; JInt 3]); Interrupted KeyboardInterrupt ]
    = (sent, Unclosed ZMQError) ∧
    head sent = Some HELLO ∧ last sent = Some IDLE ∧ BYE ∉ sent.
Proof.
  exact (interrupted_session_sends_no_bye Sample.build Sample.clean
           [Sample.says [JStr "HELLO"; JInt 3]] Sample.registered
           KeyboardInterrupt [] eq_refl).
Defined.

Example interrupted_session_requests :
  main Sample.build Sample.clean
       [ Reply (Sample.says [JStr "HELLO"; JInt 3]); Interrupted KeyboardInterrupt ]
  = ([HELLO; IDLE], Unclosed ZMQError).
Proof. reflexivity. Qed.

(** ** [SEND] *)

(** The master answers the [BUILT] of a successful build with [DONE] and
    then sends [SEND] for a file of that [BUILT]: the slave is registered,
    its last [BUILT] reported success and has the file in its mapping, and
    the [SEND] branch fails at its second assertion. *)
Lemma send_after_done_counterexample :
  let fn := "foo-0.1-cp34-cp34m-linux_armv7l.whl" in
  let script := [ Sample.says [JStr "HELLO"; JInt 3];
                  Sample.says [JStr "BUILD"; JStr "foo"; JStr "0.1"];
                  Sample.says [JStr "DONE"] ] in
  ∃ fs,
    (main Sample.build Sample.clean (map Reply script)).1
    = [HELLO; IDLE; BUILT "foo" "0.1" true 300 "log" fs; IDLE] ∧
    is_Some (fs !! fn) ∧
    after Sample.build Sample.clean script initial = Some Sample.registered ∧
    handle Sample.build Sample.clean Sample.registered
           {| reply := [JStr "SEND"; JStr fn]; juggler := Sample.upload |}
    = Raise (AssertionError "Send before build / after failed build").
Proof.
  exists (built_files [Sample.foo_wheel]). split_and!; try reflexivity.
  vm_compute. by eexists.
Qed.

Lemma send_reaches_transfer_witness :
  handle Sample.build Sample.clean Sample.after_build
         {| reply := [JStr "SEND"; JStr "foo-0.1-cp34-cp34m-linux_armv7l.whl"];
            juggler := Sample.upload |}
  = Ok (Continue {| slave_id := Some 3%Z; builder := Some Sample.foo_builder;
                    next_request := SENT |}).
Proof.
  destruct (send_reaches_transfer Sample.build Sample.clean
              [ Sample.says [JStr "HELLO"; JInt 3];
                Sample.says [JStr "BUILD"; JStr "foo"; JStr "0.1"] ]
              [] Sample.after_build Sample.after_build
              {| reply := [JStr "SEND"; JStr "foo-0.1-cp34-cp34m-linux_armv7l.whl"];
                 juggler := Sample.upload |}
              "foo" "0.1" 300 "log" (built_files [Sample.foo_wheel])
              "foo-0.1-cp34-cp34m-linux_armv7l.whl"
              eq_refl eq_refl eq_refl)
    as (id & bld & pkg & others & Hid & Hb & Hfilter & _ & _ & Hhandle).
  - intros y Hy. by apply not_elem_of_nil in Hy.
  - vm_compute. eexists. reflexivity.
  - reflexivity.
  - injection Hid as <-. injection Hb as <-.
    vm_compute in Hfilter. injection Hfilter as <- _. exact Hhandle.
Defined.

End MoreSlaveSamples.
